(** * GeriCare Supplier: the embedded-page pipeline of the dashboard page

    A shallow embedding of [src/pages/dashboard/overview/index.tsx] (with the
    constant [API_BASE] of the auth store) and the properties of its pure
    helpers: the URL rewriter, the style sanitizer, the active-entry match,
    the navigation and content extraction, the click handler of the content
    area and the route-change effect. *)

From Stdlib Require Import Ascii String.
From Stdlib Require Import List NArith Bool Lia Arith.
Import ListNotations.

(** ** JavaScript strings

    A JavaScript string is a sequence of UTF-16 code units; a code unit is
    modelled as a number of [N].  Literals of the source are written
    [js "..."]; all of them are ASCII. *)

Module Js.

Definition char := N.
Definition jsstring := list char.

Definition js (s : string) : jsstring :=
  map N_of_ascii (list_ascii_of_string s).

(** The punctuation the source names. *)
Definition dquote : char := 34%N.
Definition squote : char := 39%N.
Definition lparen : char := 40%N.
Definition rparen : char := 41%N.
Definition slash : char := 47%N.
Definition colon : char := 58%N.
Definition semicolon : char := 59%N.

(** [a === b] on strings. *)
Fixpoint streq (a b : jsstring) : bool :=
  match a, b with
  | [], [] => true
  | c :: a', d :: b' => (c =? d)%N && streq a' b'
  | _, _ => false
  end.

(** [s.startsWith(p)] *)
Fixpoint startsWith (s p : jsstring) {struct p} : bool :=
  match p with
  | [] => true
  | c :: p' =>
      match s with
      | [] => false
      | d :: s' => (d =? c)%N && startsWith s' p'
      end
  end.

(** [s.endsWith(p)] *)
Definition endsWith (s p : jsstring) : bool :=
  startsWith (rev s) (rev p).

(** [s.includes(needle)] *)
Fixpoint includes (s needle : jsstring) : bool :=
  startsWith s needle ||
  match s with
  | [] => false
  | _ :: s' => includes s' needle
  end.

(** [list.includes(s)] for an array of strings. *)
Definition arrayIncludes (l : list jsstring) (s : jsstring) : bool :=
  existsb (streq s) l.

(** [s.slice(0, -1)] *)
Definition sliceDropLast (s : jsstring) : jsstring := removelast s.

(** [s.toLowerCase()].  The letters A-Z are mapped as the language does.
    Outside ASCII the Unicode tables map a code point to one that is again
    outside ASCII, but for U+212A (to k) and U+0130 (to i and U+0307); the
    needle that the source looks for after lower-casing, newsletter, has
    neither letter, so the test is decided by the ASCII mapping. *)
Definition toLowerChar (c : char) : char :=
  if ((65 <=? c) && (c <=? 90))%N then (c + 32)%N else c.

Definition toLowerCase (s : jsstring) : jsstring := map toLowerChar s.

(** WhiteSpace and LineTerminator of ECMAScript: what [trim] strips and
    what the class \s of a regular expression matches. *)
Definition isWhiteSpace (c : char) : bool :=
  ((9 <=? c) && (c <=? 13) || (c =? 32) || (c =? 160) || (c =? 5760)
   || (8192 <=? c) && (c <=? 8202) || (c =? 8232) || (c =? 8233)
   || (c =? 8239) || (c =? 8287) || (c =? 12288) || (c =? 65279))%N.

Fixpoint trimStart (s : jsstring) : jsstring :=
  match s with
  | c :: s' => if isWhiteSpace c then trimStart s' else s
  | [] => []
  end.

Definition trimEnd (s : jsstring) : jsstring := rev (trimStart (rev s)).

(** [s.trim()] *)
Definition trim (s : jsstring) : jsstring := trimEnd (trimStart s).

(** Truthiness of a string: the empty string is falsy. *)
Definition truthy (s : jsstring) : bool :=
  match s with [] => false | _ => true end.

End Js.
Import Js.

(** ** The URL rewriter *)

(** [API_BASE], exported by the auth store. *)
Definition API_BASE : jsstring := js "https://gcdev.m.frappe.cloud".

Definition fixRelativeUrl (url : jsstring) : jsstring :=
  if startsWith url (js "http") || startsWith url (js "data:") then url
  else API_BASE ++ (if startsWith url (js "/") then url else js "/" ++ url).

(** An absolute URL of scheme http or https, and a data: URL, as the
    specification writes them: the scheme, in lower case, and its colon
    come first. *)
Definition isAbsoluteHttpUrl (u : jsstring) : Prop :=
  (exists r, u = js "http:" ++ r) \/ (exists r, u = js "https:" ++ r).

Definition isDataUrl (u : jsstring) : Prop :=
  exists r, u = js "data:" ++ r.

(** The scheme of a URL: what stands before the first colon.  A scheme is
    not case-sensitive, HTTPS://host/ is the URL https://host/. *)
Definition hasScheme (scheme u : jsstring) : Prop :=
  exists s r, u = s ++ colon :: r /\ toLowerCase s = scheme.

(** The reading of C3 as it is written: the rewriter is idempotent, and
    every absolute URL of scheme http or https and every data: URL is a
    fixed point. *)
Definition fixesEveryAbsoluteUrl : Prop :=
  (forall u, fixRelativeUrl (fixRelativeUrl u) = fixRelativeUrl u) /\
  (forall u,
      hasScheme (js "http") u \/ hasScheme (js "https") u \/ hasScheme (js "data") u ->
      fixRelativeUrl u = u).

(** One leading path separator taken off, when there is one. *)
Definition dropLeadingSlash (u : jsstring) : jsstring :=
  match u with
  | c :: r => if (c =? slash)%N then r else u
  | [] => []
  end.

(** The reading of C4 as it is written: absolute http(s) URLs and data:
    URLs, and no other input, are returned unchanged; every other input is
    prefixed with the backend origin and one separator. *)
Definition passesExactlyUrls : Prop :=
  forall u,
    (isAbsoluteHttpUrl u \/ isDataUrl u -> fixRelativeUrl u = u) /\
    (~ (isAbsoluteHttpUrl u \/ isDataUrl u) ->
     fixRelativeUrl u = API_BASE ++ js "/" ++ dropLeadingSlash u).

(** ** Regular expressions

    The patterns of the source are sequences of single-character matchers
    (a literal, a class, the class \s), each at most under one greedy
    quantifier.  [exec] matches a pattern at the head of a string with the
    backtracking order of the language (a greedy quantifier first takes as
    much as it can) and returns the text taken by each atom, and the rest. *)

Module Regex.

Inductive atom :=
| One (p : char -> bool)
| Opt (p : char -> bool)
| Star (p : char -> bool)
| Plus (p : char -> bool).

Definition regex := list atom.

Definition matched := (list jsstring * jsstring)%type.

Definition push (t : jsstring) (r : option matched) : option matched :=
  match r with
  | Some (ps, rest) => Some (t :: ps, rest)
  | None => None
  end.

Definition extend (c : char) (r : option (jsstring * matched))
  : option (jsstring * matched) :=
  match r with
  | Some (t, m) => Some (c :: t, m)
  | None => None
  end.

Definition stop (r : option matched) : option (jsstring * matched) :=
  match r with
  | Some m => Some ([], m)
  | None => None
  end.

(** x* followed by the continuation [k]: the longest run first. *)
Fixpoint many (p : char -> bool) (k : jsstring -> option matched)
  (s : jsstring) : option (jsstring * matched) :=
  match s with
  | c :: s' =>
      if p c then
        match extend c (many p k s') with
        | Some r => Some r
        | None => stop (k s)
        end
      else stop (k s)
  | [] => stop (k [])
  end.

Definition group (r : option (jsstring * matched)) : option matched :=
  match r with
  | Some (t, (ps, rest)) => Some (t :: ps, rest)
  | None => None
  end.

Fixpoint exec (re : regex) (s : jsstring) {struct re} : option matched :=
  match re with
  | [] => Some ([], s)
  | One p :: re' =>
      match s with
      | c :: s' => if p c then push [c] (exec re' s') else None
      | [] => None
      end
  | Opt p :: re' =>
      let taken :=
        match s with
        | c :: s' => if p c then push [c] (exec re' s') else None
        | [] => None
        end in
      match taken with
      | Some r => Some r
      | None => push [] (exec re' s)
      end
  | Star p :: re' => group (many p (exec re') s)
  | Plus p :: re' =>
      match s with
      | c :: s' => if p c then group (extend c (many p (exec re') s')) else None
      | [] => None
      end
  end.

(** [s.replace(re, f)] for a pattern with the flag g: the string is
    scanned from left to right, each match is replaced by [f] of its
    pieces and the scan goes on behind it; [skip] counts the characters
    of the current match that are still to be passed over. *)
Fixpoint replaceFrom (re : regex) (f : list jsstring -> jsstring)
  (skip : nat) (s : jsstring) : jsstring :=
  match s with
  | [] =>
      match exec re [] with
      | Some (ps, _) => f ps
      | None => []
      end
  | c :: s' =>
      match skip with
      | S k => replaceFrom re f k s'
      | O =>
          match exec re s with
          | Some (ps, _) =>
              match length (concat ps) with
              | O => f ps ++ c :: replaceFrom re f 0 s'
              | S n => f ps ++ replaceFrom re f n s'
              end
          | None => c :: replaceFrom re f 0 s'
          end
      end
  end.

Definition replaceAll (re : regex) (f : list jsstring -> jsstring)
  (s : jsstring) : jsstring :=
  replaceFrom re f 0 s.

Definition isChar (c : char) : char -> bool := fun x => (x =? c)%N.
Definition notChar (c : char) : char -> bool := fun x => negb (x =? c)%N.

(** A literal character under the flag i.  Without the flag u a
    character outside ASCII never matches an ASCII one, so the comparison
    is the one of the ASCII letters. *)
Definition ci (c : char) : char -> bool :=
  fun x => (toLowerChar x =? toLowerChar c)%N.

Definition lits (s : jsstring) : regex := map (fun c => One (isChar c)) s.
Definition litsCi (s : jsstring) : regex := map (fun c => One (ci c)) s.

End Regex.
Import Regex.

(** The pieces of a run of literal characters: one piece each. *)
Definition singletons (s : jsstring) : list jsstring := map (fun c => [c]) s.

(** ** The style sanitizer *)

(** /NAME\s*:[^;]+;?/gi *)
Definition declarationRe (name : jsstring) : regex :=
  litsCi name ++ [Star isWhiteSpace; One (isChar colon); Plus (notChar semicolon);
             Opt (isChar semicolon)].

(** /scale\([^)]+\)/gi *)
Definition scaleRe : regex :=
  litsCi (js "scale") ++ [One (isChar lparen); Plus (notChar rparen); One (isChar rparen)].

Definition removeDeclarations (name : jsstring) (s : jsstring) : jsstring :=
  replaceAll (declarationRe name) (fun _ => []) s.

Definition sanitizeStyles (styleContent : jsstring) : jsstring :=
  let s1 := removeDeclarations (js "transform") styleContent in
  let s2 := removeDeclarations (js "-webkit-transform") s1 in
  let s3 := removeDeclarations (js "-moz-transform") s2 in
  let s4 := removeDeclarations (js "-ms-transform") s3 in
  let s5 := removeDeclarations (js "-o-transform") s4 in
  let s6 := removeDeclarations (js "zoom") s5 in
  replaceAll scaleRe (fun _ => js "scale(1)") s6.





(** *** Style texts

    A style text read as a sequence of items: plain text, transform and
    zoom declarations closed by their semicolon, and scale calls. *)














(** ** The active-entry match *)

Definition normalizePath (path : jsstring) : jsstring :=
  if endsWith path (js "/") && (1 <? length path) then sliceDropLast path
  else path.

Definition matchesPath (linkPath currentPath : jsstring) : bool :=
  let normalizedLink := normalizePath linkPath in
  let normalizedCurrent := normalizePath currentPath in
  streq linkPath currentPath
  || streq linkPath (currentPath ++ js "/")
  || streq currentPath (linkPath ++ js "/")
  || streq normalizedLink normalizedCurrent.

(** The match as the specification words it.  [stripsTo a b]: [b] is [a]
    with exactly one trailing slash taken off, and [a] is not the root
    path, which is never collapsed. *)
Definition stripsTo (a b : jsstring) : Prop :=
  a = b ++ js "/" /\ a <> js "/".

Definition sameUpToTrailingSlash (a b : jsstring) : Prop :=
  a = b \/ stripsTo a b \/ stripsTo b a.

(** ** The route-change effect *)

Definition SKIP_ROUTES : list jsstring := [js "/"; js "/login"].

(** The location of the router. *)
Record Location := {
  pathname : jsstring;
  search : jsstring;
  hash : jsstring
}.

(** A query string is empty or begins with a question mark, a fragment is
    empty or begins with a number sign: the invariant of the router's
    location. *)
Definition wellFormedLocation (l : Location) : Prop :=
  (search l = [] \/ exists r, search l = js "?" ++ r) /\
  (hash l = [] \/ exists r, hash l = js "#" ++ r).

Definition currentPathOf (l : Location) : jsstring :=
  pathname l ++ search l ++ hash l.

(** [!token], for a token that is null or a string. *)
Definition noToken (token : option jsstring) : bool :=
  match token with
  | Some t => negb (truthy t)
  | None => true
  end.

(** What a call of [fetchPageContent] does first: without a token it sets
    an error, with one it sends the request to [fullUrl]. *)
Inductive FetchAction :=
| SetError (message : jsstring)
| FetchWithAuth (fullUrl : jsstring) (token : jsstring).

Definition fetchPageContent (token : option jsstring) (url : jsstring)
  : FetchAction :=
  match token with
  | Some t =>
      if truthy t then
        FetchWithAuth (if startsWith url (js "http") then url else API_BASE ++ url) t
      else SetError (js "No authentication token available")
  | None => SetError (js "No authentication token available")
  end.

(** The effect that loads the content of the current route: [None] when
    it returns without a call of [fetchPageContent]. *)
Definition loadContentEffect (location : Location) (token : option jsstring)
  : option FetchAction :=
  let currentPath := currentPathOf location in
  if arrayIncludes SKIP_ROUTES currentPath || noToken token then None
  else Some (fetchPageContent token currentPath).

(** ** Results of calls that can throw *)

Inductive result (A : Type) : Type :=
| Ok (a : A)
| Throw (error : jsstring).
Arguments Ok {A} a.
Arguments Throw {A} error.

(** [try { body } catch { fallback }] *)
Definition tryCatch {A : Type} (body : result A) (fallback : jsstring -> A) : A :=
  match body with
  | Ok a => a
  | Throw e => fallback e
  end.

(** ** The click handler of the content area *)

(** The fields of a URL object that the source reads. *)
Module Url.
Record t := {
  origin : jsstring;
  pathname : jsstring;
  search : jsstring;
  hash : jsstring
}.
End Url.

(** What a click ends in: whether [preventDefault] and [stopPropagation]
    were called, and the route handed to [navigate], if any. *)
Record ClickOutcome := {
  defaultPrevented : bool;
  propagationStopped : bool;
  navigatedTo : option jsstring
}.

Definition leftToBrowser : ClickOutcome :=
  {| defaultPrevented := false; propagationStopped := false; navigatedTo := None |}.

Section ContentClick.

(** [new URL(s)], the URL parser of the platform; it throws on a string
    that is not an absolute URL. *)
Variable newURL : jsstring -> result Url.t.

Definition isInternalLink (url : Url.t) : bool :=
  tryCatch
    (match newURL API_BASE with
     | Ok base =>
         Ok (streq (Url.origin url) (Url.origin base)
             || startsWith (Url.pathname url) (js "/"))
     | Throw e => Throw e
     end)
    (fun _ => false).

(** [anchorHref] is the [href] property of the anchor closest to the
    target of the click: the resolved absolute URL; [None] when the
    target is in no anchor. *)
Definition handleContentClick (anchorHref : option jsstring) : ClickOutcome :=
  match anchorHref with
  | None => leftToBrowser
  | Some href =>
      if negb (truthy href) then leftToBrowser
      else
        tryCatch
          (match newURL href with
           | Ok url =>
               Ok (if isInternalLink url then
                     {| defaultPrevented := true;
                        propagationStopped := true;
                        navigatedTo :=
                          Some (Url.pathname url ++ Url.search url ++ Url.hash url) |}
                   else leftToBrowser)
           | Throw e => Throw e
           end)
          (fun _ => leftToBrowser)
  end.

End ContentClick.

(** The URL records of the two strings of the example below, as the URL
    standard parses them; other strings are not needed there and are
    refused. *)
Definition exampleNewURL (s : jsstring) : result Url.t :=
  if streq s API_BASE then
    Ok {| Url.origin := API_BASE; Url.pathname := js "/";
          Url.search := []; Url.hash := [] |}
  else if streq s (js "https://other.example/page?x=1#top") then
    Ok {| Url.origin := js "https://other.example"; Url.pathname := js "/page";
          Url.search := js "?x=1"; Url.hash := js "#top" |}
  else Throw (js "Invalid URL").

(** ** The document tree

    What [DOMParser] returns, as far as the source looks at it: elements
    with their attributes and children, text and comments.  The nodes that
    the parser reads inside a template element are not children of that
    element: they are its template contents, a document fragment of their
    own (HTML Standard, the template element).  [querySelectorAll] walks
    the descendants along the child links and so does not reach them;
    [cloneNode(true)] copies them, and the serialization behind [innerHTML]
    writes them out in the place of the children. *)

Module Dom.

Definition attribute := (jsstring * jsstring)%type.

#[local] Unset Elimination Schemes.
Inductive Node :=
| Text (data : jsstring)
| Comment (data : jsstring)
| Element (tag : jsstring) (attributes : list attribute) (children : list Node)
| Template (attributes : list attribute) (contents : list Node).
#[local] Set Elimination Schemes.

(** An element under its ancestors, the parent first. *)
Definition handle := (list Node * Node)%type.

Record Document := {
  documentElement : Node;
  (** quirks mode: class names match without regard to ASCII case *)
  quirks : bool
}.

Definition localName (n : Node) : option jsstring :=
  match n with
  | Element t _ _ => Some t
  | Template _ _ => Some (js "template")
  | _ => None
  end.

Definition attributesOf (n : Node) : list attribute :=
  match n with
  | Element _ a _ => a
  | Template a _ => a
  | _ => []
  end.

Definition childNodes (n : Node) : list Node :=
  match n with
  | Element _ _ cs => cs
  | _ => []
  end.

Definition isElement (n : Node) : bool :=
  match localName n with Some _ => true | None => false end.

Definition hasLocalName (t : jsstring) (n : Node) : bool :=
  match localName n with Some u => streq u t | None => false end.

Fixpoint lookup (name : jsstring) (a : list attribute) : option jsstring :=
  match a with
  | [] => None
  | (k, v) :: a' => if streq k name then Some v else lookup name a'
  end.

(** [n.getAttribute(name)] *)
Definition getAttribute (name : jsstring) (n : Node) : option jsstring :=
  lookup name (attributesOf n).

Fixpoint update (name value : jsstring) (a : list attribute) : list attribute :=
  match a with
  | [] => [(name, value)]
  | (k, v) :: a' =>
      if streq k name then (k, value) :: a' else (k, v) :: update name value a'
  end.

(** [n.setAttribute(name, value)] *)
Definition setAttribute (name value : jsstring) (n : Node) : Node :=
  match n with
  | Element t a cs => Element t (update name value a) cs
  | Template a cs => Template (update name value a) cs
  | _ => n
  end.

(** The tokens of a class attribute are separated by ASCII whitespace. *)
Definition isAsciiWhitespace (c : char) : bool :=
  ((c =? 9) || (c =? 10) || (c =? 12) || (c =? 13) || (c =? 32))%N.

Fixpoint tokens (cur : jsstring) (s : jsstring) : list jsstring :=
  match s with
  | [] => match cur with [] => [] | _ => [rev cur] end
  | c :: s' =>
      if isAsciiWhitespace c then
        match cur with
        | [] => tokens [] s'
        | _ => rev cur :: tokens [] s'
        end
      else tokens (c :: cur) s'
  end.

Definition classList (n : Node) : list jsstring :=
  match getAttribute (js "class") n with
  | Some v => tokens [] v
  | None => []
  end.

(** [n.classList.contains(name)] *)
Definition classListContains (name : jsstring) (n : Node) : bool :=
  existsb (streq name) (classList n).

(** [n.textContent]: the text of the descendants, in tree order. *)
Fixpoint textContent (n : Node) : jsstring :=
  match n with
  | Text d => d
  | Comment d => d
  | Element _ _ cs =>
      flat_map (fun c => match c with Comment _ => [] | _ => textContent c end) cs
  | Template _ _ => []
  end.

(** The descendants of a node in tree order. *)
Fixpoint descendants (n : Node) : list Node :=
  match n with
  | Element _ _ cs => flat_map (fun c => c :: descendants c) cs
  | _ => []
  end.

(** The descendants with their ancestors. *)
Fixpoint under (anc : list Node) (n : Node) : list handle :=
  match n with
  | Element _ _ cs => flat_map (fun c => (n :: anc, c) :: under (n :: anc) c) cs
  | _ => []
  end.

(** *** Selectors *)

Inductive simple :=
| Tag (name : jsstring)
| Class (name : jsstring)
| HasAttr (name : jsstring)
(** [[name="value"]]; [insensitive] for the attributes whose values HTML
    compares without regard to ASCII case, such as rel *)
| AttrIs (name value : jsstring) (insensitive : bool).

(** A compound selector, a chain of compounds under the descendant
    combinator as it is written (the subject last), a selector list. *)
Definition compound := list simple.
Definition complex := list compound.
Definition selector := list complex.

Definition matchesSimple (q : bool) (n : Node) (s : simple) : bool :=
  match s with
  | Tag t => hasLocalName t n
  | Class c =>
      if q then existsb (fun k => streq (toLowerCase k) (toLowerCase c)) (classList n)
      else classListContains c n
  | HasAttr a => match getAttribute a n with Some _ => true | None => false end
  | AttrIs a v i =>
      match getAttribute a n with
      | Some w => if i then streq (toLowerCase w) (toLowerCase v) else streq w v
      | None => false
      end
  end.

Definition matchesCompound (q : bool) (n : Node) (c : compound) : bool :=
  isElement n && forallb (matchesSimple q n) c.

(** The compounds still to be found, the nearest first, among the
    ancestors, the parent first. *)
Fixpoint matchesAncestors (q : bool) (chain : list compound) (anc : list Node)
  {struct anc} : bool :=
  match chain with
  | [] => true
  | c :: chain' =>
      match anc with
      | [] => false
      | a :: anc' =>
          if matchesCompound q a c then matchesAncestors q chain' anc'
          else matchesAncestors q chain anc'
      end
  end.

Definition matchesComplex (q : bool) (h : handle) (cx : complex) : bool :=
  match rev cx with
  | [] => false
  | subject :: chain =>
      matchesCompound q (snd h) subject && matchesAncestors q chain (fst h)
  end.

Definition matches (q : bool) (sel : selector) (h : handle) : bool :=
  existsb (matchesComplex q h) sel.

(** [element.querySelectorAll(sel)]: the descendants that match, each
    once, in tree order. *)
Definition querySelectorAll (q : bool) (sel : selector) (h : handle) : list handle :=
  filter (matches q sel) (under (fst h) (snd h)).

(** [element.querySelector(sel)] *)
Definition querySelector (q : bool) (sel : selector) (h : handle) : option handle :=
  hd_error (querySelectorAll q sel h).

(** [doc.querySelectorAll(sel)]: the root element is a candidate too. *)
Definition docQuerySelectorAll (doc : Document) (sel : selector) : list handle :=
  filter (matches (quirks doc) sel)
    (([], documentElement doc) :: under [] (documentElement doc)).

Definition docQuerySelector (doc : Document) (sel : selector) : option handle :=
  hd_error (docQuerySelectorAll doc sel).

(** [link.parentElement] *)
Definition parentElement (h : handle) : option handle :=
  match fst h with
  | [] => None
  | p :: anc => Some (anc, p)
  end.

(** [doc.body]: the first child of the html element that is a body or a
    frameset element. *)
Definition body (doc : Document) : option handle :=
  let root := documentElement doc in
  if hasLocalName (js "html") root then
    match find (fun c => hasLocalName (js "body") c || hasLocalName (js "frameset") c)
            (childNodes root) with
    | Some b => Some ([root], b)
    | None => None
    end
  else None.

(** *** Serialization *)

Fixpoint escape (attributeMode : bool) (s : jsstring) : jsstring :=
  match s with
  | [] => []
  | c :: s' =>
      (if (c =? 38)%N then js "&amp;"
       else if (c =? 160)%N then js "&nbsp;"
       else if (c =? 60)%N then js "&lt;"
       else if (c =? 62)%N then js "&gt;"
       else if attributeMode && (c =? dquote)%N then js "&quot;"
       else [c]) ++ escape attributeMode s'
  end.

Definition voidElements : list jsstring :=
  map js ["area"; "base"; "basefont"; "bgsound"; "br"; "col"; "embed"; "frame";
          "hr"; "img"; "input"; "keygen"; "link"; "meta"; "param"; "source";
          "track"; "wbr"]%string.

(** The elements whose text is written out as it is. *)
Definition rawTextElements : list jsstring :=
  map js ["style"; "script"; "xmp"; "iframe"; "noembed"; "noframes";
          "plaintext"]%string.

Definition serializeAttributes (a : list attribute) : jsstring :=
  flat_map (fun kv => js " " ++ fst kv ++ js "=" ++ [dquote]
                      ++ escape true (snd kv) ++ [dquote]) a.

Fixpoint serialize (raw : bool) (n : Node) : jsstring :=
  match n with
  | Text d => if raw then d else escape false d
  | Comment d => js "<!--" ++ d ++ js "-->"
  | Element t a cs =>
      js "<" ++ t ++ serializeAttributes a ++ js ">"
      ++ (if arrayIncludes voidElements t then []
          else flat_map (serialize (arrayIncludes rawTextElements t)) cs
               ++ js "</" ++ t ++ js ">")
  | Template a cs =>
      js "<template" ++ serializeAttributes a ++ js ">"
      ++ flat_map (serialize false) cs ++ js "</template>"
  end.

(** [n.innerHTML] *)
Definition innerHTML (n : Node) : jsstring :=
  match n with
  | Element t _ cs => flat_map (serialize (arrayIncludes rawTextElements t)) cs
  | Template _ cs => flat_map (serialize false) cs
  | _ => []
  end.

(** Induction on a node with the property at hand for all its children
    (or contents). *)
Section NodeInduction.

Variable P : Node -> Prop.
Hypothesis P_text : forall d, P (Text d).
Hypothesis P_comment : forall d, P (Comment d).
Hypothesis P_element : forall t a cs, Forall P cs -> P (Element t a cs).
Hypothesis P_template : forall a cs, Forall P cs -> P (Template a cs).

Fixpoint Node_ind (n : Node) : P n :=
  match n with
  | Text d => P_text d
  | Comment d => P_comment d
  | Element t a cs =>
      P_element t a cs
        ((fix all (l : list Node) : Forall P l :=
            match l with
            | [] => Forall_nil P
            | c :: l' => Forall_cons c (Node_ind c) (all l')
            end) cs)
  | Template a cs =>
      P_template a cs
        ((fix all (l : list Node) : Forall P l :=
            match l with
            | [] => Forall_nil P
            | c :: l' => Forall_cons c (Node_ind c) (all l')
            end) cs)
  end.

End NodeInduction.

End Dom.
Import Dom.

(** ** Navigation extraction *)

Definition byClass (name : string) : selector := [[[Class (js name)]]].
Definition byTag (name : string) : selector := [[[Tag (js name)]]].

Definition SIDEBAR_SELECTORS : list selector :=
  [byClass "sidebar-column"; byClass "web-sidebar"; byClass "sidebar-items"].

Definition CONTENT_SELECTORS : list selector :=
  [byTag "main"; byClass "main-content"].

(** '.sidebar-item a, a' *)
Definition linkSelector : selector :=
  [[[Class (js "sidebar-item")]; [Tag (js "a")]]; [[Tag (js "a")]]].

(** 'link[rel="stylesheet"]' *)
Definition stylesheetSelector : selector :=
  [[[Tag (js "link"); AttrIs (js "rel") (js "stylesheet") true]]].

Record SidebarItem := {
  href : jsstring;
  text : jsstring;
  isActive : bool
}.

(** The loop over [SIDEBAR_SELECTORS]: the first selector that finds an
    element decides. *)
Fixpoint firstMatch (doc : Document) (selectors : list selector) : option handle :=
  match selectors with
  | [] => None
  | sel :: rest =>
      match docQuerySelector doc sel with
      | Some h => Some h
      | None => firstMatch doc rest
      end
  end.

(** The container of the navigation links: [None] where the source
    returns the empty list for want of one. *)
Definition sidebarContainer (doc : Document) : option handle :=
  match firstMatch doc SIDEBAR_SELECTORS with
  | Some h => Some h
  | None =>
      match docQuerySelectorAll doc (byClass "list-unstyled") with
      | [] => None
      | first :: _ => parentElement first
      end
  end.

(** The body of the loop over the links: the entry of a link, when the
    link is not filtered out. *)
Definition sidebarItemOf (link : Node) : option SidebarItem :=
  let href := getAttribute (js "href") link in
  let text := trim (textContent link) in
  let isActive := classListContains (js "active") link in
  match href with
  | Some h =>
      if truthy h && truthy text
         && negb (includes (toLowerCase text) (js "newsletter"))
         && negb (includes h (js "/newsletters"))
      then Some {| href := h; text := text; isActive := isActive |}
      else None
  | None => None
  end.

Fixpoint collect {A B : Type} (f : A -> option B) (l : list A) : list B :=
  match l with
  | [] => []
  | x :: l' =>
      match f x with
      | Some y => y :: collect f l'
      | None => collect f l'
      end
  end.

(** ** Content extraction *)

Record ExtractedContent := {
  content : jsstring;
  styles : jsstring
}.

(** [removeScripts(element)]: every descendant that the selector script
    finds is taken out of its parent. *)
Fixpoint removeScripts (element : Node) : Node :=
  match element with
  | Element t a cs =>
      Element t a
        (flat_map (fun c => if hasLocalName (js "script") c then []
                            else [removeScripts c]) cs)
  | _ => element
  end.

(** A change of their attributes on the descendants of a node. *)
Fixpoint forEachDescendant (f : Node -> Node) (n : Node) : Node :=
  match n with
  | Element t a cs => Element t a (map (fun c => f (forEachDescendant f c)) cs)
  | _ => n
  end.

(** The loop over the images. *)
Definition fixImage (img : Node) : Node :=
  if hasLocalName (js "img") img then
    match getAttribute (js "src") img with
    | Some src => if truthy src then setAttribute (js "src") (fixRelativeUrl src) img
                  else img
    | None => img
    end
  else img.

(** The pattern url, an opening parenthesis, an optional quote (single or
    double), a group of one or more characters that are neither quote nor
    closing parenthesis, an optional quote, a closing parenthesis; flag g. *)
Definition isQuote (c : char) : bool := ((c =? squote) || (c =? dquote))%N.

Definition urlRe : regex :=
  lits (js "url")
  ++ [One (isChar lparen); Opt isQuote;
      Plus (fun c => negb (isQuote c || (c =? rparen)%N)); Opt isQuote;
      One (isChar rparen)].

(** The first group of [urlRe] is the piece of its sixth atom. *)
Definition fixStyleUrls (style : jsstring) : jsstring :=
  replaceAll urlRe
    (fun pieces => js "url('" ++ fixRelativeUrl (nth 5 pieces []) ++ js "')")
    style.

(** The loop over the elements with a style attribute. *)
Definition fixInlineStyle (element : Node) : Node :=
  match getAttribute (js "style") element with
  | Some style => setAttribute (js "style") (fixStyleUrls style) element
  | None => element
  end.

(** [doc.body || doc.documentElement], then the first of
    [CONTENT_SELECTORS] that finds an element below it, or itself. *)
Definition mainContentOf (doc : Document) : handle :=
  let body := match body doc with
              | Some b => b
              | None => ([], documentElement doc)
              end in
  match collect (fun sel => querySelector (quirks doc) sel body) CONTENT_SELECTORS with
  | found :: _ => found
  | [] => body
  end.

(** The copy of the main content after the three loops. *)
Definition contentCloneOf (doc : Document) : Node :=
  let contentClone := snd (mainContentOf doc) in
  forEachDescendant fixInlineStyle
    (forEachDescendant fixImage (removeScripts contentClone)).

Definition stylesOf (doc : Document) : jsstring :=
  flat_map (fun style => sanitizeStyles (innerHTML (snd style)) ++ [10%N])
    (docQuerySelectorAll doc (byTag "style"))
  ++ flat_map (fun link =>
       match getAttribute (js "href") (snd link) with
       | Some h => if truthy h then
                     js "@import url('" ++ fixRelativeUrl h ++ js "');" ++ [10%N]
                   else []
       | None => []
       end)
     (docQuerySelectorAll doc stylesheetSelector).

Section Extraction.

(** [new DOMParser().parseFromString(html, 'text/html')] *)
Variable parseFromString : jsstring -> result Document.

Definition extractSidebarItems (html : jsstring) : list SidebarItem :=
  tryCatch
    (match parseFromString html with
     | Ok doc =>
         Ok (match sidebarContainer doc with
             | None => []
             | Some container =>
                 collect (fun link => sidebarItemOf (snd link))
                   (querySelectorAll (quirks doc) linkSelector container)
             end)
     | Throw e => Throw e
     end)
    (fun _ => []).

Definition extractStylesAndContent (html : jsstring) : ExtractedContent :=
  tryCatch
    (match parseFromString html with
     | Ok doc =>
         Ok {| content := innerHTML (contentCloneOf doc);
               styles := stylesOf doc |}
     | Throw e => Throw e
     end)
    (fun _ => {| content := html; styles := [] |}).

End Extraction.

(** *** Documents of the examples *)

Definition htmlDocument (bodyChildren : list Node) : Document :=
  {| documentElement :=
       Element (js "html") []
         [Element (js "head") [] []; Element (js "body") [] bodyChildren];
     quirks := true |}.

(** The document of
    <nav class="sidebar-items"><a href="/app/orders">Orders</a><a href="/newsletters/1">Newsletter</a></nav> *)
Definition ordersDocument : Document :=
  htmlDocument
    [Element (js "nav") [(js "class", js "sidebar-items")]
       [Element (js "a") [(js "href", js "/app/orders")] [Text (js "Orders")];
        Element (js "a") [(js "href", js "/newsletters/1")] [Text (js "Newsletter")]]].

(** The document of
    <nav class="sidebar-items"><a href="/app/newsletter-archive">Archive</a></nav> *)
Definition archiveDocument : Document :=
  htmlDocument
    [Element (js "nav") [(js "class", js "sidebar-items")]
       [Element (js "a") [(js "href", js "/app/newsletter-archive")]
          [Text (js "Archive")]]].

(** The document of
    <main><img src="/files/a.png"><script>evil()</script></main> *)
Definition imageDocument : Document :=
  htmlDocument
    [Element (js "main") []
       [Element (js "img") [(js "src", js "/files/a.png")] [];
        Element (js "script") [] [Text (js "evil()")]]].

(** The document of
    <main><template><script>evil()</script></template></main> *)
Definition templateDocument : Document :=
  htmlDocument
    [Element (js "main") []
       [Template [] [Element (js "script") [] [Text (js "evil()")]]]].

(** The document of
    <xmp class="main-content"><script>evil()</script></xmp>
    The text of an xmp element is not parsed: it is one text node. *)
Definition xmpDocument : Document :=
  htmlDocument
    [Element (js "xmp") [(js "class", js "main-content")]
       [Text (js "<script>evil()</script>")]].

(** The document of
    <main><xmp><script>evil()</script></xmp></main> *)
Definition xmpInMainDocument : Document :=
  htmlDocument
    [Element (js "main") []
       [Element (js "xmp") [] [Text (js "<script>evil()</script>")]]].

(** A node that is not a script element. *)
Definition notScript (n : Node) : Prop := hasLocalName (js "script") n = false.

(** The reading of C8 as it is written: no entry has the word newsletter,
    in any letter case, in its text or in its href. *)
Definition mentionsNewsletter (s : jsstring) : bool :=
  includes (toLowerCase s) (js "newsletter").

Definition neverListsNewsletter : Prop :=
  forall (parseFromString : jsstring -> result Document) (html : jsstring),
    Forall (fun item => mentionsNewsletter (text item) = false /\
                        mentionsNewsletter (href item) = false)
      (extractSidebarItems parseFromString html).

(** The anchors below a node, in tree order. *)
Definition anchorsBelow (n : Node) : list Node :=
  filter (hasLocalName (js "a")) (descendants n).

(** *** Script elements in markup *)

(** A script element that the serialization writes out: among the nodes,
    below them, or in the contents of a template.  The children of a void
    element are not written. *)
Fixpoint writesScript (n : Node) : bool :=
  match n with
  | Element t _ cs =>
      streq t (js "script")
      || negb (arrayIncludes voidElements t) && existsb writesScript cs
  | Template _ cs => existsb writesScript cs
  | _ => false
  end.

(** A piece of markup holds a script element: it is the serialization of
    nodes that write one out. *)
Definition markupHoldsScript (markup : jsstring) : Prop :=
  exists nodes,
    markup = flat_map (serialize false) nodes /\ existsb writesScript nodes = true.












(** The document of
    <main><style>.a{color:red}</style><!-- note --><p class="a">1 &lt; 2</p><script>evil()</script></main> *)
Definition styledDocument : Document :=
  htmlDocument
    [Element (js "main") []
       [Element (js "style") [] [Text (js ".a{color:red}")];
        Comment (js " note ");
        Element (js "p") [(js "class", js "a")] [Text (js "1 < 2")];
        Element (js "script") [] [Text (js "evil()")]]].

(** The least number of characters a match of a pattern takes. *)
Definition minLength (re : regex) : nat :=
  length (filter (fun a => match a with One _ | Plus _ => true | _ => false end) re).

(** What the pattern of [fixStyleUrls] takes as a URL: no quote and no
    closing parenthesis. *)
Definition urlCharacter (c : char) : bool := negb (isQuote c || (c =? rparen)%N).

(** No quote, or one quote of either kind. *)
Definition optionalQuote (q : jsstring) : Prop :=
  q = [] \/ exists c, q = [c] /\ isQuote c = true.

(** A URL that a document other than the backend's can load: it begins
    with http or with data:. *)
Definition absoluteUrl (u : jsstring) : bool :=
  startsWith u (js "http") || startsWith u (js "data:").

(** ** The auth store *)

(** [value || fallback] for a value that is a string, null or missing. *)
Definition orElse (value : option jsstring) (fallback : jsstring) : jsstring :=
  match value with
  | Some s => if truthy s then s else fallback
  | None => fallback
  end.

(** [s.split('@')[0]]: the characters before the first at sign. *)
Fixpoint beforeAt (s : jsstring) : jsstring :=
  match s with
  | [] => []
  | c :: s' => if (c =? 64)%N then [] else c :: beforeAt s'
  end.

Module AuthStore.

Record User := {
  email : jsstring;
  full_name : jsstring
}.

Record AuthState := {
  isAuthenticated : bool;
  user : option User;
  homePage : option jsstring;
  token : option jsstring;
  error : option jsstring
}.

(** The state the store is created with. *)
Definition initialState : AuthState :=
  {| isAuthenticated := false; user := None; homePage := None;
     token := None; error := None |}.

(** [set({ error })] *)
Definition setError (e : option jsstring) (st : AuthState) : AuthState :=
  {| isAuthenticated := isAuthenticated st; user := user st;
     homePage := homePage st; token := token st; error := e |}.

(** What the login request came back with: whether the status is in the
    2xx range, and the fields of the JSON body that the source reads, a
    field being [None] when it is missing or null. *)
Record LoginResponse := {
  ok : bool;
  message : option jsstring;
  home_page : option jsstring;
  data_full_name : option jsstring
}.

Record LoginResult := {
  success : bool;
  resultHomePage : option jsstring
}.

Definition API_TOKEN : jsstring := js "b5a11fd3272c41d:b107017770524e7".

Definition isMessage (m : option jsstring) (expected : jsstring) : bool :=
  match m with
  | Some s => streq s expected
  | None => false
  end.

(** [login(usr, pwd)]; [response] is [None] when the request, the
    reading of its body or the reading of a field throws. *)
Definition login (usr pwd : jsstring) (response : option LoginResponse)
  (st : AuthState) : AuthState * LoginResult :=
  let st1 := setError None st in
  match response with
  | Some r =>
      if ok r && (isMessage (message r) (js "Logged In")
                  || isMessage (message r) (js "No App")) then
        let homePage := orElse (home_page r) (js "/me") in
        ({| isAuthenticated := true;
            user := Some {| email := usr;
                            full_name := orElse (data_full_name r) (beforeAt usr) |};
            homePage := Some homePage;
            token := Some API_TOKEN;
            error := None |},
         {| success := true; resultHomePage := Some homePage |})
      else
        (setError (Some (orElse (message r) (js "Login failed"))) st1,
         {| success := false; resultHomePage := None |})
  | None =>
      (setError (Some (js "Network error. Please try again.")) st1,
       {| success := false; resultHomePage := None |})
  end.

(** [logout()]: the outcome of the request is ignored. *)
Definition logout (requestFailed : bool) (st : AuthState) : AuthState :=
  {| isAuthenticated := false; user := None; homePage := None;
     token := None; error := None |}.

Definition clearError (st : AuthState) : AuthState := setError None st.

(** The calls of the store. *)
Inductive Action :=
| Login (usr pwd : jsstring) (response : option LoginResponse)
| Logout (requestFailed : bool)
| ClearError.

Definition step (st : AuthState) (a : Action) : AuthState :=
  match a with
  | Login usr pwd response => fst (login usr pwd response st)
  | Logout failed => logout failed st
  | ClearError => clearError st
  end.

(** The state after a sequence of calls on a fresh store. *)
Definition run (actions : list Action) : AuthState :=
  fold_left step actions initialState.

(** A session is all there or not at all. *)
Definition sessionConsistent (st : AuthState) : Prop :=
  if isAuthenticated st then
    (exists u, user st = Some u) /\
    (exists h, homePage st = Some h /\ h <> []) /\
    token st = Some API_TOKEN
  else user st = None /\ homePage st = None /\ token st = None.

End AuthStore.

(** ** The routes *)

(** What a route renders. *)
Inductive View :=
| Navigate (to : jsstring)
| SigninPage
| DashboardOverviewPage.

(** The three routes of [AppRoutes]: /login, /* and /. *)
Inductive MatchedRoute := LoginRoute | ProtectedRoutes | DefaultRoute.

Definition ProtectedRoute (isAuthenticated : bool) (children : View) : View :=
  if negb isAuthenticated then Navigate (js "/login") else children.

(** The element of the route that matched. *)
Definition AppRoutes (st : AuthStore.AuthState) (route : MatchedRoute) : View :=
  let isAuthenticated := AuthStore.isAuthenticated st in
  let homePage := AuthStore.homePage st in
  match route with
  | LoginRoute =>
      if isAuthenticated then Navigate (orElse homePage (js "/dashboard"))
      else SigninPage
  | ProtectedRoutes => ProtectedRoute isAuthenticated DashboardOverviewPage
  | DefaultRoute =>
      Navigate (if isAuthenticated then orElse homePage (js "/dashboard")
                else js "/login")
  end.

(** ** The state of the dashboard page *)

(** [`${n}`] for a status code. *)
Fixpoint digits (u : Decimal.uint) : jsstring :=
  match u with
  | Decimal.Nil => []
  | Decimal.D0 u' => 48%N :: digits u'
  | Decimal.D1 u' => 49%N :: digits u'
  | Decimal.D2 u' => 50%N :: digits u'
  | Decimal.D3 u' => 51%N :: digits u'
  | Decimal.D4 u' => 52%N :: digits u'
  | Decimal.D5 u' => 53%N :: digits u'
  | Decimal.D6 u' => 54%N :: digits u'
  | Decimal.D7 u' => 55%N :: digits u'
  | Decimal.D8 u' => 56%N :: digits u'
  | Decimal.D9 u' => 57%N :: digits u'
  end.

Definition numberToString (n : N) : jsstring := digits (N.to_uint n).

(** How a request ends: it is rejected, or a response comes with its
    status; [body] is [None] when reading the text throws. *)
Inductive Fetched :=
| Rejected
| Responded (ok : bool) (status : N) (statusText : jsstring) (body : option jsstring).

Record PageState := {
  sidebarItems : list SidebarItem;
  mainContent : jsstring;
  contentStyles : jsstring;
  isLoading : bool;
  isContentLoading : bool;
  pageError : option jsstring
}.

Definition failedToLoadPage (status : N) (statusText : jsstring) : jsstring :=
  js "Failed to load page: " ++ numberToString status ++ js " " ++ statusText.

Section PageEffects.

Variable parseFromString : jsstring -> result Document.

(** The effect that fetches the sidebar, run to its end, with no other
    change of the state in between. *)
Definition fetchSidebar (homePage token : option jsstring) (fetched : Fetched)
  (st : PageState) : PageState :=
  if noToken homePage || noToken token then
    {| sidebarItems := sidebarItems st; mainContent := mainContent st;
       contentStyles := contentStyles st;
       isLoading := false; isContentLoading := isContentLoading st;
       pageError := Some (if noToken homePage then js "No home page configured"
                          else js "No authentication token available") |}
  else
    let failed message :=
      {| sidebarItems := sidebarItems st; mainContent := mainContent st;
         contentStyles := contentStyles st;
         isLoading := false; isContentLoading := isContentLoading st;
         pageError := Some message |} in
    match fetched with
    | Responded true _ _ (Some html) =>
        {| sidebarItems := extractSidebarItems parseFromString html;
           mainContent := mainContent st; contentStyles := contentStyles st;
           isLoading := false; isContentLoading := isContentLoading st;
           pageError := None |}
    | Responded false status statusText _ =>
        failed (failedToLoadPage status statusText)
    | _ => failed (js "Failed to load dashboard content. Please try again.")
    end.

(** A call of [fetchPageContent], run to its end, the timers included,
    with no other change of the state in between. *)
Definition fetchPageContentState (token : option jsstring) (fetched : Fetched)
  (st : PageState) : PageState :=
  if noToken token then
    {| sidebarItems := sidebarItems st; mainContent := mainContent st;
       contentStyles := contentStyles st;
       isLoading := isLoading st; isContentLoading := isContentLoading st;
       pageError := Some (js "No authentication token available") |}
  else
    let failed message :=
      {| sidebarItems := sidebarItems st; mainContent := mainContent st;
         contentStyles := contentStyles st;
         isLoading := isLoading st; isContentLoading := false;
         pageError := Some message |} in
    match fetched with
    | Responded true _ _ (Some html) =>
        let extracted := extractStylesAndContent parseFromString html in
        {| sidebarItems := sidebarItems st;
           mainContent := content extracted; contentStyles := styles extracted;
           isLoading := isLoading st; isContentLoading := false;
           pageError := None |}
    | Responded false status statusText _ =>
        failed (failedToLoadPage status statusText)
    | _ => failed (js "Failed to load page content. Please try again.")
    end.

End PageEffects.

(* ================================================================== *)
(** * Properties *)

(** ** Strings *)

Lemma streq_refl (a : jsstring) : streq a a = true.
Proof.
  induction a as [|c a IH]; simpl; [reflexivity|].
  now rewrite N.eqb_refl, IH.
Qed.

Lemma streq_eq (a b : jsstring) : streq a b = true <-> a = b.
Proof.
  split; [|intros ->; apply streq_refl].
  revert b; induction a as [|c a IH]; intros [|d b]; simpl; try discriminate;
    [reflexivity|].
  intros H. apply andb_prop in H as [Hc Hr].
  apply N.eqb_eq in Hc. f_equal; [assumption | now apply IH].
Qed.

Lemma startsWith_app (p r : jsstring) : startsWith (p ++ r) p = true.
Proof.
  induction p as [|c p IH]; simpl; [reflexivity|].
  now rewrite N.eqb_refl, IH.
Qed.

Lemma startsWith_prefix (s p : jsstring) :
  startsWith s p = true <-> exists r, s = p ++ r.
Proof.
  split.
  - revert s; induction p as [|c p IH]; intros s H; simpl in *.
    + now exists s.
    + destruct s as [|d s]; [discriminate|].
      apply andb_prop in H as [Hc Hr]. apply N.eqb_eq in Hc; subst d.
      destruct (IH _ Hr) as [r ->]. now exists r.
  - intros [r ->]. apply startsWith_app.
Qed.

Lemma startsWith_app_l (p q r : jsstring) :
  startsWith p q = true -> startsWith (p ++ r) q = true.
Proof.
  intros H. apply startsWith_prefix in H as [t ->].
  rewrite <- app_assoc. apply startsWith_app.
Qed.

(** ** URL rewriter *)

Lemma API_BASE_http : startsWith API_BASE (js "http") = true.
Proof. reflexivity. Qed.

Lemma API_BASE_nonempty : API_BASE <> [].
Proof. discriminate. Qed.

Lemma fixRelativeUrl_passes (u : jsstring) :
  startsWith u (js "http") || startsWith u (js "data:") = true ->
  fixRelativeUrl u = u.
Proof. intros H. unfold fixRelativeUrl. now rewrite H. Qed.

Lemma fixRelativeUrl_prefixes (u : jsstring) :
  startsWith u (js "http") || startsWith u (js "data:") = false ->
  fixRelativeUrl u = API_BASE ++ js "/" ++ dropLeadingSlash u.
Proof.
  intros H. unfold fixRelativeUrl. rewrite H. f_equal.
  destruct u as [|c r]; [reflexivity|].
  unfold dropLeadingSlash, slash. simpl.
  destruct (c =? 47)%N eqn:E; [|reflexivity].
  apply N.eqb_eq in E. now subst c.
Qed.

Lemma fixRelativeUrl_starts_http (u : jsstring) :
  startsWith (fixRelativeUrl u) (js "http") || startsWith (fixRelativeUrl u) (js "data:") = true.
Proof.
  destruct (startsWith u (js "http") || startsWith u (js "data:")) eqn:E.
  - now rewrite (fixRelativeUrl_passes _ E).
  - rewrite (fixRelativeUrl_prefixes _ E).
    rewrite startsWith_app_l by exact API_BASE_http. reflexivity.
Qed.

Lemma fixRelativeUrl_changes (u : jsstring) :
  startsWith u (js "http") || startsWith u (js "data:") = false ->
  fixRelativeUrl u <> u.
Proof.
  intros E H. rewrite (fixRelativeUrl_prefixes u E) in H.
  apply (f_equal (@length char)) in H. rewrite !length_app in H.
  change (length (js "/")) with 1 in H.
  assert (Hb : 0 < length API_BASE) by (vm_compute; lia).
  assert (Hd : length u <= 1 + length (dropLeadingSlash u)); [|lia].
  destruct u as [|c r]; [simpl; lia|].
  unfold dropLeadingSlash. destruct (c =? slash)%N; simpl; lia.
Qed.

(** An absolute URL whose scheme is written in upper case is treated as a
    relative path. *)
Lemma fixRelativeUrl_upper_case_scheme :
  hasScheme (js "https") (js "HTTPS://cdn.example/a.css") /\
  fixRelativeUrl (js "HTTPS://cdn.example/a.css")
  = js "https://gcdev.m.frappe.cloud/HTTPS://cdn.example/a.css".
Proof.
  split; [|reflexivity].
  exists (js "HTTPS"), (js "//cdn.example/a.css"). split; reflexivity.
Qed.

Lemma fixRelativeUrl_scheme_counterexample : ~ fixesEveryAbsoluteUrl.
Proof.
  intros [_ H]. destruct fixRelativeUrl_upper_case_scheme as [Hs He].
  specialize (H (js "HTTPS://cdn.example/a.css") (or_intror (or_introl Hs))).
  rewrite He in H. discriminate H.
Qed.

(** C3, amended.  The URL rewriter is idempotent on every string, and
    every URL that begins with http: or https: or data: in lower case is a
    fixed point of it.  The test is on the first characters (http, or
    data:) and case-sensitive: an input that does not pass it, such as a
    URL whose scheme is written in upper case, is not a fixed point, it is
    returned behind the backend origin and one path separator. *)
Theorem fixRelativeUrl_idempotent :
  (forall u, fixRelativeUrl (fixRelativeUrl u) = fixRelativeUrl u) /\
  (forall u, isAbsoluteHttpUrl u \/ isDataUrl u -> fixRelativeUrl u = u) /\
  (forall u,
      startsWith u (js "http") || startsWith u (js "data:") = false ->
      fixRelativeUrl u <> u /\
      fixRelativeUrl u = API_BASE ++ js "/" ++ dropLeadingSlash u).
Proof.
  split; [|split].
  - intros u. apply fixRelativeUrl_passes, fixRelativeUrl_starts_http.
  - intros u H. apply fixRelativeUrl_passes.
    destruct H as [[[r ->]|[r ->]]|[r ->]]; reflexivity.
  - intros u E. split; [now apply fixRelativeUrl_changes|].
    now apply fixRelativeUrl_prefixes.
Qed.

Lemma fixRelativeUrl_idempotent_witness :
  fixRelativeUrl (js "https://cdn.example/a.css") = js "https://cdn.example/a.css" /\
  fixRelativeUrl (js "data:image/png;base64,AAAA") = js "data:image/png;base64,AAAA" /\
  fixRelativeUrl (js "Http://cdn.example/a.css") <> js "Http://cdn.example/a.css".
Proof.
  split; [|split].
  - apply (proj1 (proj2 fixRelativeUrl_idempotent)).
    left. right. exists (js "//cdn.example/a.css"). reflexivity.
  - apply (proj1 (proj2 fixRelativeUrl_idempotent)).
    right. exists (js "image/png;base64,AAAA"). reflexivity.
  - exact (proj1 (proj2 (proj2 fixRelativeUrl_idempotent)
                    (js "Http://cdn.example/a.css") eq_refl)).
Defined.

Lemma fixRelativeUrl_relative_unchanged :
  ~ (isAbsoluteHttpUrl (js "httpd/logo.png") \/ isDataUrl (js "httpd/logo.png")) /\
  fixRelativeUrl (js "httpd/logo.png") = js "httpd/logo.png".
Proof.
  split; [|reflexivity].
  intros [[[r H]|[r H]]|[r H]]; discriminate H.
Qed.

Lemma fixRelativeUrl_exact_counterexample : ~ passesExactlyUrls.
Proof.
  intros H. destruct (H (js "httpd/logo.png")) as [_ H2].
  destruct fixRelativeUrl_relative_unchanged as [Hn He].
  specialize (H2 Hn). rewrite He in H2. discriminate H2.
Qed.

(** C4, amended.  The rewriter returns unchanged exactly the inputs that
    begin with the four characters http or the five characters data: (a
    test on the first characters, in this letter case); every other input
    is returned behind the backend origin and one path separator, the
    input's own leading separator counting as that one. *)
Theorem fixRelativeUrl_prefix_test (u : jsstring) :
  (fixRelativeUrl u = u <->
   startsWith u (js "http") || startsWith u (js "data:") = true) /\
  (startsWith u (js "http") || startsWith u (js "data:") = false ->
   fixRelativeUrl u = API_BASE ++ js "/" ++ dropLeadingSlash u /\
   (startsWith u (js "/") = true -> fixRelativeUrl u = API_BASE ++ u) /\
   (startsWith u (js "/") = false -> fixRelativeUrl u = API_BASE ++ js "/" ++ u)).
Proof.
  split.
  - split; [|apply fixRelativeUrl_passes].
    intros H.
    destruct (startsWith u (js "http") || startsWith u (js "data:")) eqn:E;
      [reflexivity|exfalso].
    unfold fixRelativeUrl in H. rewrite E in H.
    apply (f_equal (@length char)) in H. rewrite length_app in H.
    assert (0 < length API_BASE) by (vm_compute; lia).
    destruct (startsWith u (js "/")); [lia|].
    rewrite length_app in H. lia.
  - intros E. split; [now apply fixRelativeUrl_prefixes|].
    unfold fixRelativeUrl. rewrite E. split; intros ->; reflexivity.
Qed.

Lemma fixRelativeUrl_prefix_test_witness :
  fixRelativeUrl (js "files/a.png") = js "https://gcdev.m.frappe.cloud/files/a.png" /\
  fixRelativeUrl (js "/files/a.png") = js "https://gcdev.m.frappe.cloud/files/a.png".
Proof.
  split.
  - apply (proj2 (fixRelativeUrl_prefix_test (js "files/a.png"))); reflexivity.
  - apply (proj2 (fixRelativeUrl_prefix_test (js "/files/a.png"))); reflexivity.
Defined.

(** ** Style sanitizer *)

(** A name that goes on behind the word transform is not matched. *)
Lemma sanitizeStyles_keeps_transform_origin :
  sanitizeStyles (js "a{transform-origin: center;}")
  = js "a{transform-origin: center;}".
Proof. vm_compute. reflexivity. Qed.

(** A transform declaration that is the last of its rule, written without
    the closing semicolon, takes the text up to the next semicolon with
    it. *)
Lemma sanitizeStyles_open_declaration :
  sanitizeStyles (js ".a{transform:none}.b{color:red;margin:0}")
  = js ".a{margin:0}".
Proof. vm_compute. reflexivity. Qed.

(** C6.  An unrelated declaration that shares the word transform does not
    survive unchanged: text-transform loses the tail of its name and its
    value, and of a vendor-prefixed transform the prefix stays and joins
    the declaration behind it. *)
Theorem sanitizeStyles_damages_unrelated :
  sanitizeStyles (js "p { text-transform: uppercase; color: red; }")
  = js "p { text- color: red; }" /\
  sanitizeStyles (js "a{-webkit-transform:rotate(1deg);color:red}")
  = js "a{-webkit-color:red}".
Proof. split; vm_compute; reflexivity. Qed.

(** *** The matcher *)

Lemma includes_cons_false (c : char) (s n : jsstring) :
  includes (c :: s) n = false ->
  startsWith (c :: s) n = false /\ includes s n = false.
Proof. simpl. intros H. now apply orb_false_elim in H. Qed.

Lemma includes_spec (s n : jsstring) :
  includes s n = true <-> exists a b, s = a ++ n ++ b.
Proof.
  split.
  - induction s as [|c s IH]; simpl; intros H.
    + rewrite orb_false_r in H. apply startsWith_prefix in H as [r Hr].
      exists [], r. exact Hr.
    + apply orb_prop in H as [H|H].
      * apply startsWith_prefix in H as [r Hr]. exists [], r. exact Hr.
      * destruct (IH H) as (a & b & ->). now exists (c :: a), b.
  - intros (a & b & ->). induction a as [|c a IH].
    + simpl. destruct (n ++ b) eqn:E; simpl.
      * destruct n; [reflexivity|discriminate].
      * rewrite <- E, startsWith_app. reflexivity.
    + simpl. simpl in IH. rewrite IH. apply orb_true_r.
Qed.

Lemma includes_suffix_needle (s p q : jsstring) :
  includes s q = false -> includes s (p ++ q) = false.
Proof.
  intros H. destruct (includes s (p ++ q)) eqn:E; [|reflexivity].
  apply includes_spec in E as (a & b & ->).
  rewrite <- H. symmetry. apply includes_spec.
  exists (a ++ p), b. now rewrite <- !app_assoc.
Qed.

Lemma many_sound p k s t m :
  many p k s = Some (t, m) -> exists s2, s = t ++ s2 /\ k s2 = Some m.
Proof.
  revert t m. induction s as [|c s IH]; simpl; intros t m H.
  - destruct (k []) eqn:E; [|discriminate]. injection H as <- <-.
    now exists [].
  - destruct (p c).
    + destruct (many p k s) as [[t' m']|] eqn:E; simpl in H.
      * injection H as <- <-. destruct (IH _ _ eq_refl) as (s2 & -> & Hk).
        now exists s2.
      * destruct (k (c :: s)) eqn:E2; [|discriminate]. injection H as <- <-.
        now exists (c :: s).
    + destruct (k (c :: s)) eqn:E2; [|discriminate]. injection H as <- <-.
      now exists (c :: s).
Qed.

(** A match takes a prefix of the string: the pieces, in order, and the
    rest make up the string. *)
Lemma exec_sound re : forall s ps rest,
  exec re s = Some (ps, rest) -> s = concat ps ++ rest.
Proof.
  induction re as [|a re IH]; intros s ps rest H.
  - simpl in H. now injection H as <- <-.
  - destruct a as [p|p|p|p]; simpl in H.
    + destruct s as [|c s]; [discriminate|]. destruct (p c); [|discriminate].
      destruct (exec re s) as [[ps' r']|] eqn:E; [|discriminate].
      injection H as <- <-. simpl. f_equal. now apply IH.
    + destruct s as [|c s].
      * destruct (exec re []) as [[ps' r']|] eqn:E; [|discriminate].
        injection H as <- <-. simpl. now apply IH.
      * destruct (p c).
        -- destruct (exec re s) as [[ps' r']|] eqn:E; simpl in H.
           ++ injection H as <- <-. simpl. f_equal. now apply IH.
           ++ destruct (exec re (c :: s)) as [[ps' r']|] eqn:E2; [|discriminate].
              injection H as <- <-. simpl. now apply IH.
        -- destruct (exec re (c :: s)) as [[ps' r']|] eqn:E2; [|discriminate].
           injection H as <- <-. simpl. now apply IH.
    + destruct (many p (exec re) s) as [[t [ps' r']]|] eqn:E; [|discriminate].
      injection H as <- <-. apply many_sound in E as (s2 & -> & Hk).
      simpl. rewrite <- app_assoc. f_equal. now apply IH.
    + destruct s as [|c s]; [discriminate|]. destruct (p c); [|discriminate].
      destruct (many p (exec re) s) as [[t [ps' r']]|] eqn:E; [|discriminate].
      injection H as <- <-. apply many_sound in E as (s2 & -> & Hk).
      simpl. f_equal. rewrite <- app_assoc. f_equal. now apply IH.
Qed.

(** A greedy run takes the whole of a run [t] that the next character ends. *)
Lemma many_run p k t s m :
  Forall (fun c => p c = true) t ->
  (forall c s', s = c :: s' -> p c = false) ->
  k s = Some m ->
  many p k (t ++ s) = Some (t, m).
Proof.
  intros Ht Hs Hk. induction Ht as [|c t Hc Ht IH]; simpl.
  - destruct s as [|d s']; simpl; [now rewrite Hk|].
    rewrite (Hs d s' eq_refl). now rewrite Hk.
  - rewrite Hc, IH. reflexivity.
Qed.

Lemma exec_litsCi_startsWith name re : forall t m,
  exec (litsCi name ++ re) t = Some m ->
  startsWith (toLowerCase t) (toLowerCase name) = true.
Proof.
  induction name as [|c name IH]; intros t m H; [reflexivity|].
  simpl in H. destruct t as [|d t]; [discriminate|].
  unfold ci in H at 1. simpl.
  destruct (toLowerChar d =? toLowerChar c)%N; [|discriminate].
  destruct (exec (litsCi name ++ re) t) as [m'|] eqn:E; [|discriminate].
  simpl. exact (IH _ _ E).
Qed.



Lemma replaceFrom_skip re f (t s : jsstring) :
  replaceFrom re f (length t) (t ++ s) = replaceFrom re f 0 s.
Proof.
  induction t as [|c t IH]; simpl; [|exact IH].
  destruct s; reflexivity.
Qed.

(** A match at the head is replaced, and the scan goes on behind it. *)
Lemma replaceAll_head re f s ps rest :
  exec re s = Some (ps, rest) -> concat ps <> [] ->
  replaceAll re f s = f ps ++ replaceAll re f rest.
Proof.
  intros He Hne. pose proof (exec_sound _ _ _ _ He) as Hs.
  destruct (concat ps) as [|c t] eqn:Ec; [contradiction|].
  unfold replaceAll. subst s. simpl. simpl in He. rewrite He, Ec. simpl.
  now rewrite replaceFrom_skip.
Qed.

(** A text in which the literal head of the pattern does not occur, in any
    letter case, is left as it is. *)
Lemma replaceAll_clean name re f (s : jsstring) :
  includes (toLowerCase s) (toLowerCase name) = false ->
  replaceAll (litsCi name ++ re) f s = s.
Proof.
  unfold replaceAll. induction s as [|c s IH]; intros H.
  - simpl. destruct (exec (litsCi name ++ re) []) as [m|] eqn:E; [|reflexivity].
    apply exec_litsCi_startsWith in E. simpl in H, E.
    rewrite E in H. discriminate.
  - change (toLowerCase (c :: s)) with (toLowerChar c :: toLowerCase s) in H.
    apply includes_cons_false in H as [H1 H2].
    simpl. destruct (exec (litsCi name ++ re) (c :: s)) as [m|] eqn:E.
    + apply exec_litsCi_startsWith in E.
      change (toLowerCase (c :: s)) with (toLowerChar c :: toLowerCase s) in E.
      rewrite E in H1. discriminate.
    + now rewrite (IH H2).
Qed.

Lemma includes_app_false_r (a s n : jsstring) :
  includes (toLowerCase (a ++ s)) n = false ->
  includes (toLowerCase s) n = false.
Proof.
  intros H. destruct (includes (toLowerCase s) n) eqn:E; [|reflexivity].
  apply includes_spec in E as (x & y & E). rewrite <- H. symmetry.
  apply includes_spec. exists (toLowerCase a ++ x), y.
  unfold toLowerCase in *. rewrite map_app, E. now rewrite <- app_assoc.
Qed.





(** Without the word transform, in any letter case, the five transform
    passes change nothing. *)
Lemma sanitizeStyles_no_transform (s : jsstring) :
  includes (toLowerCase s) (js "transform") = false ->
  sanitizeStyles s
  = replaceAll scaleRe (fun _ => js "scale(1)") (removeDeclarations (js "zoom") s).
Proof.
  intros H. unfold sanitizeStyles, removeDeclarations at 2 3 4 5 6, declarationRe.
  rewrite (replaceAll_clean (js "transform")) by exact H.
  rewrite (replaceAll_clean (js "-webkit-transform"))
    by exact (includes_suffix_needle _ (js "-webkit-") _ H).
  rewrite (replaceAll_clean (js "-moz-transform"))
    by exact (includes_suffix_needle _ (js "-moz-") _ H).
  rewrite (replaceAll_clean (js "-ms-transform"))
    by exact (includes_suffix_needle _ (js "-ms-") _ H).
  rewrite (replaceAll_clean (js "-o-transform"))
    by exact (includes_suffix_needle _ (js "-o-") _ H).
  reflexivity.
Qed.

Lemma removeDeclarations_clean name (s : jsstring) :
  includes (toLowerCase s) (toLowerCase name) = false ->
  removeDeclarations name s = s.
Proof. apply replaceAll_clean. Qed.


(** A comment between the name and the colon keeps a declaration from
    being matched. *)
Lemma sanitizeStyles_comment_before_colon :
  sanitizeStyles (js "a{transform/**/:rotate(9deg);}")
  = js "a{transform/**/:rotate(9deg);}".
Proof. vm_compute. reflexivity. Qed.


(** *** Text that no pattern can match in *)






















(** ** Active-entry match *)

Lemma endsWith_slash (p : jsstring) :
  endsWith p (js "/") = true <-> exists q, p = q ++ js "/".
Proof.
  unfold endsWith. rewrite startsWith_prefix. split.
  - intros [r H]. exists (rev r).
    rewrite <- (rev_involutive p), H. now rewrite rev_app_distr.
  - intros [q ->]. exists (rev q). now rewrite rev_app_distr.
Qed.

Lemma normalizePath_strip (q : jsstring) :
  q <> [] -> normalizePath (q ++ js "/") = q.
Proof.
  intros Hq. unfold normalizePath.
  rewrite (proj2 (endsWith_slash (q ++ js "/"))) by now exists q.
  rewrite length_app. simpl length.
  destruct q as [|c q]; [contradiction|].
  replace (1 <? length (c :: q) + 1) with true
    by (symmetry; apply Nat.ltb_lt; simpl; lia).
  unfold sliceDropLast. apply removelast_last.
Qed.

Lemma normalizePath_cases (p : jsstring) :
  normalizePath p = p \/ (exists q, q <> [] /\ p = q ++ js "/" /\ normalizePath p = q).
Proof.
  unfold normalizePath. destruct (endsWith p (js "/")) eqn:E; [|now left].
  destruct (1 <? length p) eqn:L; [|now left].
  right. apply endsWith_slash in E as [q ->]. exists q.
  assert (Hq : q <> []).
  { intros ->. simpl in L. discriminate. }
  repeat split; try assumption.
  unfold sliceDropLast. apply removelast_last.
Qed.

Lemma app_slash_not_root (p : jsstring) : p <> [] -> p ++ js "/" <> js "/".
Proof.
  intros Hp E. apply (f_equal (@length char)) in E.
  rewrite length_app in E. destruct p; [contradiction|simpl in E; lia].
Qed.

(** The four tests of the source come down to three: the paths are equal,
    or one is the other followed by one slash. *)
Lemma matchesPath_spec (a b : jsstring) :
  matchesPath a b = true <-> a = b \/ a = b ++ js "/" \/ b = a ++ js "/".
Proof.
  unfold matchesPath. rewrite !orb_true_iff, !streq_eq. split.
  - intros [[[H|H]|H]|H]; auto.
    destruct (normalizePath_cases a) as [Ha|(qa & Hqa & Ea & Ha)];
      destruct (normalizePath_cases b) as [Hb|(qb & Hqb & Eb & Hb)];
      rewrite Ha, Hb in H; subst; auto.
  - intros [H|[H|H]]; auto.
Qed.

Lemma matchesPath_nonempty (a b : jsstring) :
  a <> [] -> b <> [] ->
  (matchesPath a b = true <-> sameUpToTrailingSlash a b).
Proof.
  intros Ha Hb.
  rewrite matchesPath_spec. unfold sameUpToTrailingSlash, stripsTo. split.
  - intros [H|[H|H]]; [now left| |].
    + right; left. split; [exact H|]. subst. now apply app_slash_not_root.
    + right; right. split; [exact H|]. subst. now apply app_slash_not_root.
  - intros [H|[[H _]|[H _]]]; auto.
Qed.

(** C7.  For an entry href and a current route, neither of which is the
    empty string, the match answers true exactly when the two are equal
    byte for byte or equal after one trailing slash is taken off either
    of them, the root path being left alone; so a path and the same path
    with one more trailing slash match as the path matches itself. *)
Theorem matchesPath_trailing_slash (linkPath currentPath : jsstring) :
  linkPath <> [] -> currentPath <> [] ->
  (matchesPath linkPath currentPath = true
   <-> sameUpToTrailingSlash linkPath currentPath) /\
  matchesPath (linkPath ++ js "/") linkPath = matchesPath linkPath linkPath /\
  matchesPath linkPath (linkPath ++ js "/") = matchesPath linkPath linkPath.
Proof.
  intros Ha Hb. split; [|split].
  - now apply matchesPath_nonempty.
  - transitivity true; [|symmetry]; apply matchesPath_spec; auto.
  - transitivity true; [|symmetry]; apply matchesPath_spec; auto.
Qed.

Lemma matchesPath_trailing_slash_witness :
  matchesPath (js "/app/orders") (js "/app/orders/") = true.
Proof.
  apply (proj1 (matchesPath_trailing_slash (js "/app/orders") (js "/app/orders/")
                  ltac:(discriminate) ltac:(discriminate))).
  right. right. split; [reflexivity|discriminate].
Defined.

Lemma matchesPath_root_and_empty :
  matchesPath (js "/") [] = true /\ matchesPath [] (js "/") = true.
Proof. split; reflexivity. Qed.

(** ** Route-change effect *)

Lemma arrayIncludes_SKIP_ROUTES (p : jsstring) :
  arrayIncludes SKIP_ROUTES p = true <-> p = js "/" \/ p = js "/login".
Proof.
  unfold arrayIncludes, SKIP_ROUTES. simpl existsb.
  rewrite orb_false_r, orb_true_iff, !streq_eq. reflexivity.
Qed.

Lemma query_or_fragment_head (l : Location) :
  wellFormedLocation l -> search l ++ hash l <> [] ->
  exists c r, search l ++ hash l = c :: r /\ (c = 63%N \/ c = 35%N).
Proof.
  intros [[Hs|[r Hs]] [Hh|[r' Hh]]] Hne; rewrite Hs in *.
  - rewrite Hh in Hne. now contradiction Hne.
  - rewrite Hh. exists 35%N, r'. auto.
  - exists 63%N, (r ++ hash l). auto.
  - exists 63%N, (r ++ hash l). auto.
Qed.

(** C10.  With a token, the effect returns without a fetch exactly when the
    whole of path, query and fragment equals "/" or "/login"; a location
    whose path is one of the two and whose query or fragment is not empty
    is fetched, from the backend origin followed by the whole string. *)
Theorem loadContentEffect_skips_exact_routes
  (location : Location) (t : jsstring) :
  t <> [] ->
  (loadContentEffect location (Some t) = None
   <-> currentPathOf location = js "/" \/ currentPathOf location = js "/login") /\
  (wellFormedLocation location ->
   pathname location = js "/" \/ pathname location = js "/login" ->
   search location ++ hash location <> [] ->
   loadContentEffect location (Some t)
   = Some (FetchWithAuth (API_BASE ++ currentPathOf location) t)).
Proof.
  intros Ht.
  assert (Htok : noToken (Some t) = false) by (destruct t; [contradiction|reflexivity]).
  split.
  - unfold loadContentEffect. rewrite Htok, orb_false_r.
    rewrite <- arrayIncludes_SKIP_ROUTES.
    destruct (arrayIncludes SKIP_ROUTES (currentPathOf location)); split;
      intros H; try reflexivity; discriminate H.
  - intros Hwf Hp Hne.
    destruct (query_or_fragment_head location Hwf Hne) as (c & r & Hsh & Hc).
    assert (Hcp : exists p, currentPathOf location = js "/" ++ p ++ c :: r /\
                            (p = [] \/ p = js "login")).
    { unfold currentPathOf. rewrite Hsh.
      destruct Hp as [-> | ->]; [exists []|exists (js "login")]; auto. }
    destruct Hcp as (p & Hcp & Hpp).
    assert (Hskip : arrayIncludes SKIP_ROUTES (currentPathOf location) = false).
    { destruct (arrayIncludes SKIP_ROUTES (currentPathOf location)) eqn:E;
        [exfalso|reflexivity].
      apply arrayIncludes_SKIP_ROUTES in E. rewrite Hcp in E.
      destruct Hpp as [-> | ->], E as [E|E], Hc as [-> | ->];
        simpl in E; try discriminate E;
        (apply (f_equal (@length char)) in E; simpl in E;
         rewrite ?length_app in E; simpl in E; lia). }
    unfold loadContentEffect. rewrite Hskip, Htok. simpl.
    unfold fetchPageContent.
    replace (truthy t) with true by (destruct t; [contradiction|reflexivity]).
    rewrite Hcp. reflexivity.
Qed.

Lemma loadContentEffect_skips_exact_routes_witness :
  loadContentEffect
    {| pathname := js "/login"; search := js "?next=/x"; hash := [] |}
    (Some (js "b5a11fd3272c41d:b107017770524e7"))
  = Some (FetchWithAuth (js "https://gcdev.m.frappe.cloud/login?next=/x")
            (js "b5a11fd3272c41d:b107017770524e7")).
Proof.
  apply (proj2 (loadContentEffect_skips_exact_routes
                  {| pathname := js "/login"; search := js "?next=/x"; hash := [] |}
                  (js "b5a11fd3272c41d:b107017770524e7") ltac:(discriminate))).
  - split; [right; exists (js "next=/x"); reflexivity | left; reflexivity].
  - right. reflexivity.
  - discriminate.
Defined.

(** ** Click handler *)

(** Whatever the origin, a URL whose path begins with a slash is taken as
    internal, and every http(s) URL has such a path. *)
Lemma isInternalLink_rooted_path newURL (base url : Url.t) :
  newURL API_BASE = Ok base ->
  startsWith (Url.pathname url) (js "/") = true ->
  isInternalLink newURL url = true.
Proof.
  intros Hb Hp. unfold isInternalLink, tryCatch. rewrite Hb, Hp.
  apply orb_true_r.
Qed.

Lemma handleContentClick_rooted_path newURL (base url : Url.t) (href : jsstring) :
  href <> [] ->
  newURL API_BASE = Ok base ->
  newURL href = Ok url ->
  startsWith (Url.pathname url) (js "/") = true ->
  handleContentClick newURL (Some href)
  = {| defaultPrevented := true;
       propagationStopped := true;
       navigatedTo := Some (Url.pathname url ++ Url.search url ++ Url.hash url) |}.
Proof.
  intros Hh Hb Hu Hp. unfold handleContentClick.
  replace (truthy href) with true by (destruct href; [contradiction|reflexivity]).
  simpl. rewrite Hu. unfold tryCatch.
  now rewrite (isInternalLink_rooted_path newURL base url Hb Hp).
Qed.

(** C2.  A click on a link to another origin is not left to the browser:
    the handler prevents the default navigation, stops the propagation and
    routes the client to the path, query and fragment of the foreign URL. *)
Theorem handleContentClick_foreign_origin :
  handleContentClick exampleNewURL (Some (js "https://other.example/page?x=1#top"))
  = {| defaultPrevented := true;
       propagationStopped := true;
       navigatedTo := Some (js "/page?x=1#top") |}.
Proof. vm_compute. reflexivity. Qed.

(** ** Document tree *)

Lemma under_descendants (n : Node) : forall anc,
  map snd (under anc n) = descendants n.
Proof.
  induction n as [d|d|t a cs IH|a cs IH] using Node_ind; intros anc;
    try reflexivity.
  simpl. generalize (Element t a cs :: anc) as anc'. intros anc'.
  induction IH as [|c cs Hc Hcs IHcs]; simpl; [reflexivity|].
  rewrite map_app, Hc, IHcs. reflexivity.
Qed.

Lemma filter_map_snd {A B : Type} (p : B -> bool) (l : list (A * B)) :
  map snd (filter (fun h => p (snd h)) l) = filter p (map snd l).
Proof.
  induction l as [|h l IH]; simpl; [reflexivity|].
  destruct (p (snd h)); simpl; now rewrite IH.
Qed.

Lemma collect_map {A B C : Type} (f : B -> option C) (g : A -> B) (l : list A) :
  collect (fun x => f (g x)) l = collect f (map g l).
Proof.
  induction l as [|x l IH]; simpl; [reflexivity|].
  destruct (f (g x)); now rewrite IH.
Qed.

Lemma hasLocalName_isElement (t : jsstring) (n : Node) :
  isElement n && (hasLocalName t n && true) = hasLocalName t n.
Proof.
  unfold isElement, hasLocalName. destruct (localName n); simpl;
    [apply andb_true_r|reflexivity].
Qed.

Lemma matchesAncestors_nil (q : bool) (anc : list Node) :
  matchesAncestors q [] anc = true.
Proof. destruct anc; reflexivity. Qed.

(** The selector list of the links, '.sidebar-item a, a', finds the
    anchors, each once. *)
Lemma matches_linkSelector (q : bool) (h : handle) :
  matches q linkSelector h = hasLocalName (js "a") (snd h).
Proof.
  unfold matches, linkSelector, matchesComplex. simpl rev. simpl existsb.
  unfold matchesCompound. simpl forallb.
  rewrite hasLocalName_isElement, matchesAncestors_nil.
  destruct (hasLocalName (js "a") (snd h)); simpl; [|reflexivity].
  now rewrite orb_true_r.
Qed.

Lemma querySelectorAll_links (q : bool) (h : handle) :
  map snd (querySelectorAll q linkSelector h) = anchorsBelow (snd h).
Proof.
  unfold querySelectorAll, anchorsBelow.
  rewrite (filter_ext (matches q linkSelector)
             (fun x => hasLocalName (js "a") (snd x)) (matches_linkSelector q)).
  etransitivity;
    [apply (@filter_map_snd (list Node) Node (hasLocalName (js "a")))|].
  now rewrite under_descendants.
Qed.

(** ** Navigation extraction *)

Lemma sidebarItemOf_kept (link : Node) (item : SidebarItem) :
  sidebarItemOf link = Some item ->
  getAttribute (js "href") link = Some (href item) /\
  text item = trim (textContent link) /\
  isActive item = classListContains (js "active") link /\
  href item <> [] /\ text item <> [] /\
  mentionsNewsletter (text item) = false /\
  includes (href item) (js "/newsletters") = false.
Proof.
  unfold sidebarItemOf, mentionsNewsletter.
  destruct (getAttribute (js "href") link) as [h|]; [|discriminate].
  destruct (truthy h) eqn:Eh; [|discriminate].
  destruct (truthy (trim (textContent link))) eqn:Et; [|discriminate].
  destruct (includes (toLowerCase (trim (textContent link))) (js "newsletter"))
    eqn:En; [discriminate|].
  destruct (includes h (js "/newsletters")) eqn:Es; [discriminate|].
  simpl. intros [= <-]. simpl.
  repeat split; try reflexivity; try assumption.
  - intros ->. discriminate Eh.
  - intros E. rewrite E in Et. discriminate Et.
Qed.

Lemma collect_In {A B : Type} (f : A -> option B) (l : list A) (y : B) :
  In y (collect f l) <-> exists x, In x l /\ f x = Some y.
Proof.
  induction l as [|x l IH]; simpl.
  - split; [contradiction|intros (x & [] & _)].
  - destruct (f x) as [z|] eqn:E; simpl; rewrite IH; split.
    + intros [<-|(x' & Hin & Hf)]; [exists x; auto|exists x'; auto].
    + intros (x' & [<-|Hin] & Hf); [left; congruence|right; exists x'; auto].
    + intros (x' & Hin & Hf). exists x'; auto.
    + intros (x' & [<-|Hin] & Hf); [congruence|exists x'; auto].
Qed.

Lemma extractSidebarItems_parsed parseFromString html doc :
  parseFromString html = Ok doc ->
  extractSidebarItems parseFromString html
  = match sidebarContainer doc with
    | None => []
    | Some container => collect sidebarItemOf (anchorsBelow (snd container))
    end.
Proof.
  intros Hp. unfold extractSidebarItems. rewrite Hp. simpl.
  destruct (sidebarContainer doc) as [c|]; [|reflexivity].
  now rewrite (collect_map sidebarItemOf snd), querySelectorAll_links.
Qed.

Lemma extractSidebarItems_keeps_newsletter_href :
  extractSidebarItems (fun _ => Ok archiveDocument)
    (js "<nav class='sidebar-items'><a href='/app/newsletter-archive'>Archive</a></nav>")
  = [{| href := js "/app/newsletter-archive"; text := js "Archive";
        isActive := false |}].
Proof. vm_compute. reflexivity. Qed.

Lemma extractSidebarItems_lists_newsletter : ~ neverListsNewsletter.
Proof.
  intros H.
  specialize (H (fun _ => Ok archiveDocument)
    (js "<nav class='sidebar-items'><a href='/app/newsletter-archive'>Archive</a></nav>")).
  rewrite extractSidebarItems_keeps_newsletter_href in H.
  inversion H as [|? ? [_ Hh] _]. vm_compute in Hh. discriminate Hh.
Qed.

(** C8, amended.  For every input markup the navigation list holds no
    entry whose text has the word newsletter, in any letter case, and none
    whose href has the characters /newsletters, in this letter case, and
    every entry has a non-empty href and a non-empty trimmed text; for
    markup that the parser accepts the list is made of the anchors below
    the container, in document order and with their duplicates, that pass
    this filter. *)
Theorem extractSidebarItems_filters_newsletter
  (parseFromString : jsstring -> result Document) (html : jsstring) :
  Forall (fun item => href item <> [] /\ text item <> [] /\
                      mentionsNewsletter (text item) = false /\
                      includes (href item) (js "/newsletters") = false)
    (extractSidebarItems parseFromString html) /\
  (forall doc, parseFromString html = Ok doc ->
     extractSidebarItems parseFromString html
     = match sidebarContainer doc with
       | None => []
       | Some container => collect sidebarItemOf (anchorsBelow (snd container))
       end /\
     (forall container link h,
         sidebarContainer doc = Some container ->
         In link (anchorsBelow (snd container)) ->
         getAttribute (js "href") link = Some h ->
         h <> [] -> trim (textContent link) <> [] ->
         mentionsNewsletter (trim (textContent link)) = false ->
         includes h (js "/newsletters") = false ->
         In {| href := h; text := trim (textContent link);
               isActive := classListContains (js "active") link |}
           (extractSidebarItems parseFromString html))).
Proof.
  split.
  - destruct (parseFromString html) as [doc|e] eqn:Hp.
    + rewrite (extractSidebarItems_parsed _ _ _ Hp).
      destruct (sidebarContainer doc) as [c|]; [|constructor].
      apply Forall_forall. intros item Hin.
      apply collect_In in Hin as (link & _ & Hk).
      apply sidebarItemOf_kept in Hk. tauto.
    + unfold extractSidebarItems. rewrite Hp. constructor.
  - intros doc Hp. rewrite (extractSidebarItems_parsed _ _ _ Hp). split.
    + reflexivity.
    + intros c link h Hc Hin Hh Hne Ht Hn Hs. rewrite Hc.
      apply collect_In. exists link. split; [exact Hin|].
      unfold sidebarItemOf. rewrite Hh. unfold mentionsNewsletter in Hn.
      rewrite Hn, Hs.
      destruct h; [contradiction|]. destruct (trim (textContent link));
        [contradiction|reflexivity].
Qed.

Lemma extractSidebarItems_filters_newsletter_witness :
  extractSidebarItems (fun _ => Ok ordersDocument)
    (js "<nav class='sidebar-items'><a href='/app/orders'>Orders</a><a href='/newsletters/1'>Newsletter</a></nav>")
  = [{| href := js "/app/orders"; text := js "Orders"; isActive := false |}].
Proof.
  rewrite (proj1 (proj2 (extractSidebarItems_filters_newsletter
                           (fun _ => Ok ordersDocument) _) ordersDocument eq_refl)).
  vm_compute. reflexivity.
Defined.

(** C9.  Neither extraction throws: both are total functions into their
    result types, whatever the parser does.  When the parser throws, the
    navigation list is empty and the fragment is the input as it came, with
    empty styles; when the document has no container for the navigation,
    the list is empty; and a parsed document gives the fragment built from
    it. *)
Theorem extraction_never_throws
  (parseFromString : jsstring -> result Document) (html : jsstring) :
  (forall e, parseFromString html = Throw e ->
     extractSidebarItems parseFromString html = [] /\
     extractStylesAndContent parseFromString html
     = {| content := html; styles := [] |}) /\
  (forall doc, parseFromString html = Ok doc ->
     (sidebarContainer doc = None -> extractSidebarItems parseFromString html = []) /\
     extractStylesAndContent parseFromString html
     = {| content := innerHTML (contentCloneOf doc); styles := stylesOf doc |}).
Proof.
  split.
  - intros e He. unfold extractSidebarItems, extractStylesAndContent.
    rewrite He. split; reflexivity.
  - intros doc Hd. split.
    + intros Hc. rewrite (extractSidebarItems_parsed _ _ _ Hd), Hc. reflexivity.
    + unfold extractStylesAndContent. rewrite Hd. reflexivity.
Qed.

Lemma extraction_never_throws_witness :
  (extractSidebarItems (fun _ => Throw (js "SyntaxError")) (js "<p>raw</p>") = [] /\
   extractStylesAndContent (fun _ => Throw (js "SyntaxError")) (js "<p>raw</p>")
   = {| content := js "<p>raw</p>"; styles := [] |}) /\
  extractSidebarItems (fun _ => Ok (htmlDocument [])) [] = [].
Proof.
  split.
  - apply (proj1 (extraction_never_throws (fun _ => Throw (js "SyntaxError"))
                    (js "<p>raw</p>")) (js "SyntaxError")).
    reflexivity.
  - apply (proj2 (extraction_never_throws (fun _ => Ok (htmlDocument [])) [])
             (htmlDocument [])); reflexivity.
Defined.

(** ** Content extraction *)

Lemma localName_setAttribute k v n : localName (setAttribute k v n) = localName n.
Proof. destruct n; reflexivity. Qed.

Lemma childNodes_setAttribute k v n : childNodes (setAttribute k v n) = childNodes n.
Proof. destruct n; reflexivity. Qed.

Lemma localName_removeScripts n : localName (removeScripts n) = localName n.
Proof. destruct n; reflexivity. Qed.

Lemma localName_forEachDescendant f n : localName (forEachDescendant f n) = localName n.
Proof. destruct n; reflexivity. Qed.

Lemma descendants_childNodes n :
  descendants n = flat_map (fun c => c :: descendants c) (childNodes n).
Proof. destruct n; reflexivity. Qed.

Lemma notScript_localName (n m : Node) :
  localName n = localName m -> notScript m -> notScript n.
Proof. unfold notScript, hasLocalName. now intros ->. Qed.

(** After [removeScripts] no descendant of the element is a script
    element. *)
Lemma removeScripts_descendants (n : Node) :
  Forall notScript (descendants (removeScripts n)).
Proof.
  induction n as [d|d|t a cs IH|a cs IH] using Node_ind; try constructor.
  simpl. induction IH as [|c cs Hc Hcs IHcs]; simpl; [constructor|].
  rewrite flat_map_app. apply Forall_app. split; [|exact IHcs].
  destruct (hasLocalName (js "script") c) eqn:E; simpl; [constructor|].
  rewrite app_nil_r. constructor; [|exact Hc].
  apply (notScript_localName _ c (localName_removeScripts c) E).
Qed.



Lemma fixImage_shape (x : Node) :
  localName (fixImage x) = localName x /\ childNodes (fixImage x) = childNodes x.
Proof.
  unfold fixImage. destruct (hasLocalName (js "img") x); [|now split].
  destruct (getAttribute (js "src") x) as [src|]; [|now split].
  destruct (truthy src); [|now split].
  split; [apply localName_setAttribute|apply childNodes_setAttribute].
Qed.

Lemma fixInlineStyle_shape (x : Node) :
  localName (fixInlineStyle x) = localName x /\
  childNodes (fixInlineStyle x) = childNodes x.
Proof.
  unfold fixInlineStyle. destruct (getAttribute (js "style") x); [|now split].
  split; [apply localName_setAttribute|apply childNodes_setAttribute].
Qed.



(** The scenario of the specification: the image is made absolute and the
    script is gone. *)
Lemma extractStylesAndContent_image :
  content (extractStylesAndContent (fun _ => Ok imageDocument)
             (js "<main><img src='/files/a.png'><script>evil()</script></main>"))
  = js "<img src=" ++ [dquote] ++ js "https://gcdev.m.frappe.cloud/files/a.png"
    ++ [dquote] ++ js ">".
Proof. vm_compute. reflexivity. Qed.

(** A script element in the contents of a template of the main content
    is not removed: the selector of removeScripts does not reach the
    contents of a template, and the serialization writes them out.  And
    when the main content is itself an element whose text is not parsed,
    such as xmp, its text is written out as it is, so that the content is
    the markup of a script element. *)
Lemma extractStylesAndContent_script_survives :
  content (extractStylesAndContent (fun _ => Ok templateDocument)
             (js "<main><template><script>evil()</script></template></main>"))
  = js "<template><script>evil()</script></template>" /\
  writesScript (contentCloneOf templateDocument) = true /\
  content (extractStylesAndContent (fun _ => Ok xmpDocument)
             (js "<xmp class='main-content'><script>evil()</script></xmp>"))
  = js "<script>evil()</script>" /\
  js "<script>evil()</script>"
  = flat_map (serialize false) [Element (js "script") [] [Text (js "evil()")]].
Proof. repeat split; vm_compute; reflexivity. Qed.

(** *** Script elements in the markup of the content *)






















(** *** The loops keep plain markup plain *)















(** Text that is not parsed and reads as a script element is written out
    as it is, also below the main content: the content is then the markup
    of an xmp element that holds a script element. *)
Lemma extractStylesAndContent_raw_text_script :
  content (extractStylesAndContent (fun _ => Ok xmpInMainDocument)
             (js "<main><xmp><script>evil()</script></xmp></main>"))
  = js "<xmp><script>evil()</script></xmp>" /\
  markupHoldsScript
    (content (extractStylesAndContent (fun _ => Ok xmpInMainDocument)
                (js "<main><xmp><script>evil()</script></xmp></main>"))).
Proof.
  split; [vm_compute; reflexivity|].
  exists [Element (js "xmp") [] [Element (js "script") [] [Text (js "evil()")]]].
  split; vm_compute; reflexivity.
Qed.



(** The content of that document, for the eye. *)
Lemma extractStylesAndContent_styled :
  content
    (extractStylesAndContent (fun _ => Ok styledDocument)
       (js "<main><style>.a{color:red}</style><!-- note --><p class='a'>1 &lt; 2</p><script>evil()</script></main>"))
  = js "<style>.a{color:red}</style><!-- note --><p class=" ++ [dquote] ++ js "a"
    ++ [dquote] ++ js ">1 &lt; 2</p>".
Proof. vm_compute. reflexivity. Qed.

(** ** Entries and routes of the program *)

(** Every entry href of the navigation list and every current route, whose
    path begins with a slash, is a non-empty string. *)
Lemma extractSidebarItems_href_nonempty parseFromString html item :
  In item (extractSidebarItems parseFromString html) -> href item <> [].
Proof.
  destruct (parseFromString html) as [doc|e] eqn:Hp.
  - rewrite (extractSidebarItems_parsed _ _ _ Hp).
    destruct (sidebarContainer doc) as [c|]; [|contradiction].
    intros Hin. apply collect_In in Hin as (link & _ & Hk).
    apply sidebarItemOf_kept in Hk. tauto.
  - unfold extractSidebarItems. rewrite Hp. contradiction.
Qed.

Lemma matchesPath_entries parseFromString html item location :
  In item (extractSidebarItems parseFromString html) ->
  startsWith (pathname location) (js "/") = true ->
  (matchesPath (href item) (currentPathOf location) = true
   <-> sameUpToTrailingSlash (href item) (currentPathOf location)).
Proof.
  intros Hin Hp. apply matchesPath_nonempty.
  - exact (extractSidebarItems_href_nonempty _ _ _ Hin).
  - unfold currentPathOf. apply startsWith_prefix in Hp as [r ->]. discriminate.
Qed.

(* ================================================================== *)
(** * Further properties of the page module *)

(** ** Style sanitizer *)

(** X1.  A style text in which none of the words transform, zoom and
    scale occurs, in any letter case, is returned as it is. *)
Theorem sanitizeStyles_unrelated_text (css : jsstring) :
  includes (toLowerCase css) (js "transform") = false ->
  includes (toLowerCase css) (js "zoom") = false ->
  includes (toLowerCase css) (js "scale") = false ->
  sanitizeStyles css = css.
Proof.
  intros Ht Hz Hs.
  rewrite (sanitizeStyles_no_transform _ Ht).
  rewrite (removeDeclarations_clean (js "zoom") _ Hz).
  unfold scaleRe. now apply replaceAll_clean.
Qed.

Lemma sanitizeStyles_unrelated_text_witness :
  sanitizeStyles (js ".card{color:red;margin:0 auto}") = js ".card{color:red;margin:0 auto}".
Proof.
  apply sanitizeStyles_unrelated_text; reflexivity.
Defined.

Lemma many_length p k s t ps rest :
  many p k s = Some (t, (ps, rest)) ->
  exists s2, k s2 = Some (ps, rest).
Proof.
  intros H. apply many_sound in H as (s2 & _ & Hk). now exists s2.
Qed.

Lemma exec_minLength re : forall s ps rest,
  exec re s = Some (ps, rest) -> minLength re <= length (concat ps).
Proof.
  unfold minLength.
  induction re as [|a re IH]; intros s ps rest H; [simpl; lia|].
  destruct a as [p|p|p|p]; simpl in H.
  - destruct s as [|c s]; [discriminate|]. destruct (p c); [|discriminate].
    destruct (exec re s) as [[ps' r']|] eqn:E; [|discriminate].
    injection H as <- <-. simpl. specialize (IH _ _ _ E). lia.
  - assert (Hk : exists s2 t, exec re s2 = Some (tl ps, rest) /\ ps = t :: tl ps).
    { destruct s as [|c s].
      - destruct (exec re []) as [[ps' r']|] eqn:E; [|discriminate].
        injection H as <- <-. now exists [], [].
      - destruct (p c).
        + destruct (exec re s) as [[ps' r']|] eqn:E; simpl in H.
          * injection H as <- <-. now exists s, [c].
          * destruct (exec re (c :: s)) as [[ps' r']|] eqn:E2; [|discriminate].
            injection H as <- <-. now exists (c :: s), [].
        + destruct (exec re (c :: s)) as [[ps' r']|] eqn:E2; [|discriminate].
          injection H as <- <-. now exists (c :: s), []. }
    destruct Hk as (s2 & t & Hk & ->). simpl. rewrite length_app.
    specialize (IH _ _ _ Hk). simpl in IH. lia.
  - destruct (many p (exec re) s) as [[t [ps' r']]|] eqn:E; [|discriminate].
    injection H as <- <-. apply many_length in E as (s2 & Hk).
    simpl. rewrite length_app. specialize (IH _ _ _ Hk). lia.
  - destruct s as [|c s]; [discriminate|]. destruct (p c); [|discriminate].
    destruct (many p (exec re) s) as [[t [ps' r']]|] eqn:E; [|discriminate].
    injection H as <- <-. apply many_length in E as (s2 & Hk).
    simpl. rewrite length_app. specialize (IH _ _ _ Hk). lia.
Qed.

(** A replacement that is never longer than the match it replaces keeps
    the text from growing. *)
Lemma replaceFrom_length re f :
  (forall s ps rest, exec re s = Some (ps, rest) -> length (f ps) <= length (concat ps)) ->
  forall s skip, length (replaceFrom re f skip s) <= length s - skip.
Proof.
  intros Hf. induction s as [|c s IH]; intros skip.
  - simpl. destruct (exec re []) as [[ps r]|] eqn:E; [|simpl; lia].
    pose proof (Hf _ _ _ E) as Hl. apply exec_sound in E.
    symmetry in E. apply app_eq_nil in E as [E _]. rewrite E in Hl. simpl in Hl. lia.
  - simpl. destruct skip as [|k]; [|exact (IH k)].
    destruct (exec re (c :: s)) as [[ps r]|] eqn:E.
    + pose proof (Hf _ _ _ E) as Hl. pose proof (exec_sound _ _ _ _ E) as Hs.
      apply (f_equal (@length char)) in Hs. rewrite length_app in Hs. simpl in Hs.
      destruct (length (concat ps)) as [|n] eqn:En.
      * rewrite length_app. simpl. specialize (IH 0). lia.
      * rewrite length_app. specialize (IH n). lia.
    + simpl. specialize (IH 0). lia.
Qed.

Lemma removeDeclarations_length name (s : jsstring) :
  length (removeDeclarations name s) <= length s.
Proof.
  unfold removeDeclarations, replaceAll.
  pose proof (replaceFrom_length (declarationRe name) (fun _ => [])) as H.
  specialize (H (fun _ _ _ _ => Nat.le_0_l _) s 0). lia.
Qed.

(** X2.  Sanitizing never makes a style text longer: declarations are
    taken out, and a scale call is at least as long as the scale(1) that
    stands in for it. *)
Theorem sanitizeStyles_never_longer (css : jsstring) :
  length (sanitizeStyles css) <= length css.
Proof.
  unfold sanitizeStyles.
  assert (Hs : forall s, length (replaceAll scaleRe (fun _ => js "scale(1)") s) <= length s).
  { intros s. unfold replaceAll.
    pose proof (replaceFrom_length scaleRe (fun _ => js "scale(1)")) as H.
    assert (Hm : forall s0 ps rest, exec scaleRe s0 = Some (ps, rest) ->
                   length (js "scale(1)") <= length (concat ps)).
    { intros s0 ps rest E. apply exec_minLength in E. exact E. }
    specialize (H Hm s 0). lia. }
  etransitivity; [apply Hs|].
  repeat (etransitivity; [apply removeDeclarations_length|]).
  apply Nat.le_refl.
Qed.

(** ** Active-entry match *)

(** X3.  The match does not depend on the order of its arguments, every
    path matches itself, and two paths that match differ in length by one
    character at most. *)
Theorem matchesPath_symmetric (a b : jsstring) :
  matchesPath a b = matchesPath b a /\
  matchesPath a a = true /\
  (matchesPath a b = true -> length a <= length b + 1 /\ length b <= length a + 1).
Proof.
  split; [|split].
  - apply eq_true_iff_eq. rewrite !matchesPath_spec. intuition.
  - apply matchesPath_spec. now left.
  - intros H. apply matchesPath_spec in H as [->|[->| ->]];
      rewrite ?length_app; simpl; lia.
Qed.

Lemma matchesPath_symmetric_witness :
  length (js "/app/orders/") <= length (js "/app/orders") + 1 /\
  length (js "/app/orders") <= length (js "/app/orders/") + 1.
Proof.
  apply (proj2 (proj2 (matchesPath_symmetric (js "/app/orders/") (js "/app/orders")))).
  reflexivity.
Defined.

(** X4.  [normalizePath] takes off one trailing slash at most and never
    empties a path: the result is the path or the path without its last
    character, a slash, and a non-empty path stays non-empty.  One more
    call can take off one more slash. *)
Theorem normalizePath_one_slash (path : jsstring) :
  (normalizePath path = path \/ path = normalizePath path ++ js "/") /\
  (path <> [] -> normalizePath path <> []) /\
  (normalizePath (normalizePath path) = normalizePath path
   <-> ~ exists q, q <> [] /\ path = q ++ js "//").
Proof.
  split; [|split].
  - destruct (normalizePath_cases path) as [H|(q & Hq & Hp & Hn)]; [now left|].
    right. now rewrite Hn.
  - intros Hne. destruct (normalizePath_cases path) as [H|(q & Hq & Hp & Hn)].
    + now rewrite H.
    + now rewrite Hn.
  - destruct (normalizePath_cases path) as [H|(q & Hq & Hp & Hn)].
    + rewrite H. split; [|now rewrite H].
      intros _ (q & Hq & Hp).
      assert (Hq' : q ++ js "/" <> []) by (destruct q; discriminate).
      rewrite Hp in H. change (js "//") with (js "/" ++ js "/") in H.
      rewrite app_assoc in H. rewrite (normalizePath_strip _ Hq') in H.
      apply (f_equal (@length char)) in H. rewrite !length_app in H.
      simpl in H. lia.
    + rewrite Hn. split.
      * intros Hi (q' & Hq' & Hp'). rewrite Hp' in Hp.
        change (js "//") with (js "/" ++ js "/") in Hp. rewrite app_assoc in Hp.
        apply app_inj_tail in Hp as [Hp _]. subst q.
        rewrite (normalizePath_strip _ Hq') in Hi.
        apply (f_equal (@length char)) in Hi. rewrite length_app in Hi.
        simpl in Hi. lia.
      * intros Hno. destruct (normalizePath_cases q) as [H|(q' & Hq' & Hp' & Hn')];
          [exact H|exfalso].
        apply Hno. exists q'. split; [exact Hq'|].
        rewrite Hp, Hp'. now rewrite <- app_assoc.
Qed.

Lemma normalizePath_one_slash_witness :
  normalizePath (js "/app/") <> [] /\
  normalizePath (normalizePath (js "/app/")) = normalizePath (js "/app/").
Proof.
  split.
  - apply (proj1 (proj2 (normalizePath_one_slash (js "/app/")))). discriminate.
  - apply (proj2 (proj2 (normalizePath_one_slash (js "/app/")))).
    intros (q & Hq & H).
    apply (f_equal (@rev char)) in H. rewrite rev_app_distr in H.
    vm_compute in H. discriminate H.
Defined.

(** ** Click handler of the content area *)

(** X5.  The handler acts on all or nothing: either it leaves the click
    to the browser, or it prevents the default, stops the propagation and
    navigates.  It leaves the click to the browser when the target is in
    no anchor, when the anchor has no href, when the href does not parse
    and when [API_BASE] does not parse. *)
Theorem handleContentClick_all_or_nothing
  (newURL : jsstring -> result Url.t) (anchorHref : option jsstring) :
  (handleContentClick newURL anchorHref = leftToBrowser \/
   exists route,
     handleContentClick newURL anchorHref
     = {| defaultPrevented := true; propagationStopped := true;
          navigatedTo := Some route |}) /\
  (anchorHref = None \/ anchorHref = Some [] \/
   (exists href e, anchorHref = Some href /\ newURL href = Throw e) \/
   (exists e, newURL API_BASE = Throw e) ->
   handleContentClick newURL anchorHref = leftToBrowser).
Proof.
  split.
  - unfold handleContentClick. destruct anchorHref as [href|]; [|now left].
    destruct (truthy href); simpl; [|now left].
    destruct (newURL href) as [url|e]; simpl; [|now left].
    destruct (isInternalLink newURL url); [right; eauto|now left].
  - intros [->|[->|[(href & e & -> & He)|(e & He)]]]; try reflexivity.
    + unfold handleContentClick. rewrite He.
      destruct (truthy href); reflexivity.
    + unfold handleContentClick. destruct anchorHref as [href|]; [|reflexivity].
      destruct (truthy href); simpl; [|reflexivity].
      destruct (newURL href) as [url|e']; simpl; [|reflexivity].
      unfold isInternalLink. rewrite He. reflexivity.
Qed.

Lemma handleContentClick_all_or_nothing_witness :
  handleContentClick exampleNewURL (Some (js "not a url")) = leftToBrowser.
Proof.
  apply (proj2 (handleContentClick_all_or_nothing exampleNewURL (Some (js "not a url")))).
  right. right. left. exists (js "not a url"), (js "Invalid URL"). split; reflexivity.
Defined.

(** X6.  When [API_BASE] and the href of the anchor parse, the click is
    taken over exactly when the origin of the link is the origin of
    [API_BASE] or its path begins with a slash, and the client is then
    routed to the path, the query and the fragment of the link. *)
Theorem handleContentClick_internal
  (newURL : jsstring -> result Url.t) (href : jsstring) (base url : Url.t) :
  href <> [] ->
  newURL API_BASE = Ok base ->
  newURL href = Ok url ->
  (handleContentClick newURL (Some href) <> leftToBrowser
   <-> Url.origin url = Url.origin base
       \/ startsWith (Url.pathname url) (js "/") = true) /\
  (handleContentClick newURL (Some href) <> leftToBrowser ->
   navigatedTo (handleContentClick newURL (Some href))
   = Some (Url.pathname url ++ Url.search url ++ Url.hash url)).
Proof.
  intros Hh Hb Hu.
  assert (Ht : truthy href = true) by (destruct href; [contradiction|reflexivity]).
  assert (Hi : isInternalLink newURL url
               = streq (Url.origin url) (Url.origin base)
                 || startsWith (Url.pathname url) (js "/")).
  { unfold isInternalLink. rewrite Hb. reflexivity. }
  unfold handleContentClick, tryCatch. rewrite Ht, Hu. cbn [negb]. rewrite Hi.
  destruct (streq (Url.origin url) (Url.origin base)
            || startsWith (Url.pathname url) (js "/")) eqn:E.
  - split; [|reflexivity]. split; [|discriminate].
    intros _. apply orb_prop in E as [E|E]; [left; now apply streq_eq|now right].
  - split; [|intros H; now contradiction H]. split; [intros H; now contradiction H|].
    apply orb_false_elim in E as [E1 E2].
    intros [H|H]; [apply (proj2 (streq_eq _ _)) in H; rewrite H in E1; discriminate E1
                  |rewrite H in E2; discriminate E2].
Qed.

Lemma handleContentClick_internal_witness :
  navigatedTo (handleContentClick exampleNewURL
                 (Some (js "https://other.example/page?x=1#top")))
  = Some (js "/page" ++ js "?x=1" ++ js "#top").
Proof.
  refine (proj2 (handleContentClick_internal exampleNewURL
                   (js "https://other.example/page?x=1#top") _ _ _ eq_refl eq_refl) _);
    discriminate.
Defined.

(** ** Route-change effect *)

(** X7.  The effect never ends in the missing-token error of
    [fetchPageContent]: it either does nothing or sends a request, with a
    non-empty token, to an address that begins with http; without a token
    it does nothing on any route, and for a path that begins with a slash
    the address is [API_BASE] followed by path, query and fragment. *)
Theorem loadContentEffect_requests (location : Location) (token : option jsstring) :
  (loadContentEffect location token = None \/
   exists fullUrl t,
     loadContentEffect location token = Some (FetchWithAuth fullUrl t) /\
     token = Some t /\ t <> [] /\ startsWith fullUrl (js "http") = true) /\
  (noToken token = true -> loadContentEffect location token = None) /\
  (forall fullUrl t,
     startsWith (pathname location) (js "/") = true ->
     loadContentEffect location token = Some (FetchWithAuth fullUrl t) ->
     fullUrl = API_BASE ++ currentPathOf location).
Proof.
  unfold loadContentEffect. split; [|split].
  - destruct (arrayIncludes SKIP_ROUTES (currentPathOf location)); [now left|].
    destruct token as [[|c t]|]; [now left| |now left].
    right. cbn [orb noToken truthy negb fetchPageContent].
    exists (if startsWith (currentPathOf location) (js "http")
            then currentPathOf location else API_BASE ++ currentPathOf location),
           (c :: t).
    repeat split; [discriminate|].
    destruct (startsWith (currentPathOf location) (js "http")) eqn:E; [exact E|].
    now apply startsWith_app_l.
  - intros ->. now rewrite orb_true_r.
  - intros fullUrl t Hp.
    destruct (arrayIncludes SKIP_ROUTES (currentPathOf location) || noToken token);
      [discriminate|].
    unfold fetchPageContent. destruct token as [t'|]; [|discriminate].
    destruct (truthy t'); [|discriminate].
    replace (startsWith (currentPathOf location) (js "http")) with false;
      [now intros [= <- _]|].
    unfold currentPathOf. apply startsWith_prefix in Hp as [r ->]. reflexivity.
Qed.

Lemma loadContentEffect_requests_witness :
  loadContentEffect {| pathname := js "/app/orders"; search := []; hash := [] |} None
  = None.
Proof.
  apply (proj1 (proj2 (loadContentEffect_requests
                         {| pathname := js "/app/orders"; search := []; hash := [] |} None))).
  reflexivity.
Defined.

(** ** Inline styles *)

Lemma exec_lits_app name re : forall s ps rest,
  exec re s = Some (ps, rest) ->
  exec (lits name ++ re) (name ++ s) = Some (singletons name ++ ps, rest).
Proof.
  induction name as [|c name IH]; intros s ps rest He; simpl; [exact He|].
  unfold isChar at 1. rewrite N.eqb_refl. now rewrite (IH _ _ _ He).
Qed.

Lemma exec_lits_startsWith name re : forall t m,
  exec (lits name ++ re) t = Some m -> startsWith t name = true.
Proof.
  induction name as [|c name IH]; intros t m H; [reflexivity|].
  simpl in H. destruct t as [|d t]; [discriminate|].
  unfold isChar in H at 1. simpl.
  destruct (d =? c)%N; [|discriminate].
  destruct (exec (lits name ++ re) t) as [m'|] eqn:E; [|discriminate].
  simpl. exact (IH _ _ E).
Qed.

Lemma replaceAll_clean_lits name re f (s : jsstring) :
  includes s name = false -> replaceAll (lits name ++ re) f s = s.
Proof.
  unfold replaceAll. induction s as [|c s IH]; intros H.
  - simpl. destruct (exec (lits name ++ re) []) as [m|] eqn:E; [|reflexivity].
    apply exec_lits_startsWith in E. simpl in H. rewrite E in H. discriminate.
  - apply includes_cons_false in H as [H1 H2].
    simpl. destruct (exec (lits name ++ re) (c :: s)) as [m|] eqn:E.
    + apply exec_lits_startsWith in E. rewrite E in H1. discriminate.
    + now rewrite (IH H2).
Qed.

Lemma optionalQuote_not_url (q rest : jsstring) :
  optionalQuote q ->
  forall c s', q ++ rparen :: rest = c :: s' -> urlCharacter c = false.
Proof.
  intros [->|(d & -> & Hd)] c s' E; injection E as <- _.
  - reflexivity.
  - unfold urlCharacter. now rewrite Hd.
Qed.

Lemma exec_closing_quote (q rest : jsstring) :
  optionalQuote q ->
  exec [Opt isQuote; One (isChar rparen)] (q ++ rparen :: rest)
  = Some ([q; [rparen]], rest).
Proof.
  intros [->|(d & -> & Hd)]; [reflexivity|].
  cbn [exec app]. rewrite Hd. cbn [exec]. change (isChar rparen rparen) with true.
  reflexivity.
Qed.

Lemma exec_url_head (q u q' rest : jsstring) :
  optionalQuote q -> optionalQuote q' ->
  u <> [] -> Forall (fun c => urlCharacter c = true) u ->
  exec urlRe (js "url(" ++ q ++ u ++ q' ++ rparen :: rest)
  = Some (singletons (js "url(") ++ [q; u; q'; [rparen]], rest).
Proof.
  intros Hq Hq' Hu Hall.
  change urlRe with (lits (js "url(")
                     ++ [Opt isQuote; Plus urlCharacter; Opt isQuote;
                         One (isChar rparen)]).
  apply exec_lits_app.
  destruct u as [|v vs]; [contradiction|]. inversion Hall as [|? ? Hv Hvs]; subst.
  assert (Hrun : exec [Plus urlCharacter; Opt isQuote; One (isChar rparen)]
                   ((v :: vs) ++ q' ++ rparen :: rest)
                 = Some ([v :: vs; q'; [rparen]], rest)).
  { cbn [exec app]. rewrite Hv.
    rewrite (many_run urlCharacter _ vs (q' ++ rparen :: rest)
               ([q'; [rparen]], rest) Hvs).
    - reflexivity.
    - exact (optionalQuote_not_url q' rest Hq').
    - exact (exec_closing_quote q' rest Hq'). }
  assert (Hnq : isQuote v = false).
  { unfold urlCharacter in Hv. destruct (isQuote v); [discriminate|reflexivity]. }
  destruct Hq as [->|(d & -> & Hd)].
  - change ([] ++ (v :: vs) ++ q' ++ rparen :: rest)
      with ((v :: vs) ++ q' ++ rparen :: rest).
    cbn [exec]. cbn [app] in *. rewrite Hnq. cbn [exec] in Hrun. now rewrite Hrun.
  - change ([d] ++ (v :: vs) ++ q' ++ rparen :: rest)
      with (d :: (v :: vs) ++ q' ++ rparen :: rest).
    cbn [exec]. rewrite Hd. cbn [exec] in Hrun. now rewrite Hrun.
Qed.

(** X8.  In an inline style, a url(...) at the head, with or without a
    quote on either side of a non-empty address free of quotes and closing
    parentheses, is written back with single quotes around the rewritten
    address, and the rest of the style is rewritten on its own; a style in
    which the characters url( do not occur is left as it is. *)
Theorem fixStyleUrls_head (q u q' rest : jsstring) :
  (optionalQuote q -> optionalQuote q' ->
   u <> [] -> Forall (fun c => urlCharacter c = true) u ->
   fixStyleUrls (js "url(" ++ q ++ u ++ q' ++ rparen :: rest)
   = js "url('" ++ fixRelativeUrl u ++ js "')" ++ fixStyleUrls rest) /\
  (includes rest (js "url(") = false -> fixStyleUrls rest = rest).
Proof.
  split.
  - intros Hq Hq' Hu Hall. unfold fixStyleUrls.
    rewrite (replaceAll_head urlRe _ _ _ _ (exec_url_head q u q' rest Hq Hq' Hu Hall)).
    + cbn [nth singletons map js list_ascii_of_string app]. now rewrite <- !app_assoc.
    + discriminate.
  - intros H. unfold fixStyleUrls.
    change urlRe with (lits (js "url(")
                       ++ [Opt isQuote; Plus urlCharacter; Opt isQuote;
                           One (isChar rparen)]).
    now apply replaceAll_clean_lits.
Qed.

Lemma fixStyleUrls_head_witness :
  fixStyleUrls (js "url(" ++ [dquote] ++ js "/files/bg.png" ++ [dquote]
                ++ rparen :: js " no-repeat")
  = js "url('" ++ fixRelativeUrl (js "/files/bg.png") ++ js "')"
    ++ fixStyleUrls (js " no-repeat").
Proof.
  apply (proj1 (fixStyleUrls_head [dquote] (js "/files/bg.png") [dquote]
                  (js " no-repeat"))).
  - right. exists dquote. split; reflexivity.
  - right. exists dquote. split; reflexivity.
  - discriminate.
  - repeat constructor.
Defined.

(** ** Images of the content *)

Lemma lookup_update_same k v a : lookup k (update k v a) = Some v.
Proof.
  induction a as [|[k' v'] a IH]; simpl.
  - now rewrite streq_refl.
  - destruct (streq k' k) eqn:E; simpl; rewrite E; [reflexivity|exact IH].
Qed.

Lemma lookup_update_other k k' v a :
  k' <> k -> lookup k (update k' v a) = lookup k a.
Proof.
  intros Hne.
  assert (Hk : streq k' k = false).
  { destruct (streq k' k) eqn:E; [|reflexivity]. apply streq_eq in E. contradiction. }
  induction a as [|[x w] a IH]; simpl.
  - now rewrite Hk.
  - destruct (streq x k') eqn:E; simpl.
    + apply streq_eq in E. subst x. now rewrite Hk.
    + now rewrite IH.
Qed.

Lemma getAttribute_setAttribute_same k v n :
  isElement n = true -> getAttribute k (setAttribute k v n) = Some v.
Proof.
  destruct n; try discriminate; intros _; apply lookup_update_same.
Qed.

Lemma getAttribute_setAttribute_other k k' v n :
  k' <> k -> getAttribute k (setAttribute k' v n) = getAttribute k n.
Proof.
  intros H. destruct n; try reflexivity; now apply lookup_update_other.
Qed.

Lemma getAttribute_forEachDescendant f k n :
  getAttribute k (forEachDescendant f n) = getAttribute k n.
Proof. destruct n; reflexivity. Qed.

(** The descendants after a loop that changes attributes only. *)
Lemma descendants_forEachDescendant (f : Node -> Node) :
  (forall x, childNodes (f x) = childNodes x) ->
  forall n, descendants (forEachDescendant f n)
            = map (fun d => f (forEachDescendant f d)) (descendants n).
Proof.
  intros Hc n.
  induction n as [d|d|t a cs IH|a cs IH] using Node_ind; try reflexivity.
  simpl. induction IH as [|c cs Hx Hcs IHcs]; simpl; [reflexivity|].
  rewrite map_app, IHcs. f_equal. f_equal.
  rewrite (descendants_childNodes (f _)), Hc, <- descendants_childNodes.
  exact Hx.
Qed.

Lemma getAttribute_fixInlineStyle_src x :
  getAttribute (js "src") (fixInlineStyle x) = getAttribute (js "src") x.
Proof.
  unfold fixInlineStyle. destruct (getAttribute (js "style") x); [|reflexivity].
  apply getAttribute_setAttribute_other. discriminate.
Qed.

Lemma hasLocalName_isElement_true t n : hasLocalName t n = true -> isElement n = true.
Proof. unfold hasLocalName, isElement. destruct (localName n); [reflexivity|discriminate]. Qed.

Lemma fixImage_src (y : Node) (s : jsstring) :
  hasLocalName (js "img") y = true ->
  getAttribute (js "src") (fixImage y) = Some s ->
  s <> [] -> absoluteUrl s = true.
Proof.
  intros Hi. unfold fixImage. rewrite Hi.
  destruct (getAttribute (js "src") y) as [s0|] eqn:E.
  - destruct s0 as [|c s0]; simpl truthy; cbv iota.
    + rewrite E. intros [= <-] H. now contradiction H.
    + rewrite (getAttribute_setAttribute_same _ _ _ (hasLocalName_isElement_true _ _ Hi)).
      intros [= <-] _. apply fixRelativeUrl_starts_http.
  - rewrite E. discriminate.
Qed.

(** X9.  In the copy that is serialized, every image below the root that
    has a non-empty src has an address that begins with http or with
    data:, whatever the src of the document was. *)
Theorem contentClone_images_absolute (doc : Document) (img : Node) (src : jsstring) :
  In img (descendants (contentCloneOf doc)) ->
  hasLocalName (js "img") img = true ->
  getAttribute (js "src") img = Some src ->
  src <> [] ->
  absoluteUrl src = true.
Proof.
  unfold contentCloneOf. intros Hin Hi Hs Hne.
  rewrite (descendants_forEachDescendant fixInlineStyle
             (fun x => proj2 (fixInlineStyle_shape x))) in Hin.
  apply in_map_iff in Hin as (d1 & <- & Hin).
  rewrite (descendants_forEachDescendant fixImage
             (fun x => proj2 (fixImage_shape x))) in Hin.
  apply in_map_iff in Hin as (d2 & <- & _).
  rewrite getAttribute_fixInlineStyle_src, getAttribute_forEachDescendant in Hs.
  unfold hasLocalName in Hi.
  rewrite (proj1 (fixInlineStyle_shape _)), localName_forEachDescendant,
    (proj1 (fixImage_shape _)) in Hi.
  exact (fixImage_src _ _ Hi Hs Hne).
Qed.

Lemma contentClone_images_absolute_witness :
  absoluteUrl (js "https://gcdev.m.frappe.cloud/files/a.png") = true.
Proof.
  apply (contentClone_images_absolute imageDocument
           (Element (js "img") [(js "src", js "https://gcdev.m.frappe.cloud/files/a.png")] [])).
  - vm_compute. left. reflexivity.
  - reflexivity.
  - reflexivity.
  - discriminate.
Defined.

(** ** Script removal *)

(** X10.  [removeScripts] changes nothing in an element without script
    elements below it, so a second call changes nothing any more. *)
Theorem removeScripts_idempotent (element : Node) :
  (Forall notScript (descendants element) -> removeScripts element = element) /\
  removeScripts (removeScripts element) = removeScripts element.
Proof.
  assert (H : forall n, Forall notScript (descendants n) -> removeScripts n = n).
  { intros n. induction n as [d|d|t a cs IH|a cs IH] using Node_ind;
      try reflexivity.
    simpl. intros Hd. f_equal.
    induction IH as [|c cs Hc Hcs IHcs]; [reflexivity|].
    simpl in Hd. inversion Hd as [|? ? Hn Hrest]; subst.
    apply Forall_app in Hrest as [Hdc Hds].
    simpl. unfold notScript in Hn. rewrite Hn. simpl.
    now rewrite (Hc Hdc), (IHcs Hds). }
  split; [apply H|]. apply H, removeScripts_descendants.
Qed.

Lemma removeScripts_idempotent_witness :
  removeScripts (Element (js "p") [] [Text (js "plain")])
  = Element (js "p") [] [Text (js "plain")].
Proof.
  apply (proj1 (removeScripts_idempotent (Element (js "p") [] [Text (js "plain")]))).
  repeat constructor.
Defined.

(** ** Texts of the navigation entries *)

Lemma trimStart_head (s : jsstring) :
  trimStart s = [] \/ exists c t, trimStart s = c :: t /\ isWhiteSpace c = false.
Proof.
  induction s as [|c s IH]; [now left|].
  simpl. destruct (isWhiteSpace c) eqn:E; [exact IH|].
  right. now exists c, s.
Qed.

Lemma trimStart_keeps_last (l : jsstring) (c : char) :
  isWhiteSpace c = false -> exists l', trimStart (l ++ [c]) = l' ++ [c].
Proof.
  intros Hc. induction l as [|d l IH]; simpl.
  - rewrite Hc. now exists [].
  - destruct (isWhiteSpace d); [exact IH|]. now exists (d :: l).
Qed.

(** A trimmed string is empty or has no whitespace at either end. *)
Lemma trim_ends (s : jsstring) :
  trim s = [] \/
  exists c m, trim s = c :: m /\ isWhiteSpace c = false /\
              isWhiteSpace (last (trim s) c) = false.
Proof.
  unfold trim, trimEnd.
  destruct (trimStart_head s) as [->|(c & t & -> & Hc)]; [now left|].
  destruct (trimStart_keeps_last (rev t) c Hc) as (l' & Hl).
  simpl rev. rewrite Hl, rev_app_distr.
  change (rev [c] ++ rev l') with (c :: rev l').
  right. exists c, (rev l'). split; [reflexivity|]. split; [exact Hc|].
  destruct l' as [|d u]; [exact Hc|].
  destruct (trimStart_head (rev t ++ [c])) as [E|(d' & u' & E & Hd)];
    rewrite Hl in E; [discriminate|].
  injection E as <- _.
  change (c :: rev (d :: u)) with ((c :: rev u) ++ [d]).
  rewrite last_last. exact Hd.
Qed.

(** X11.  The text of every navigation entry is trimmed: it begins and
    ends with a character that is not whitespace. *)
Theorem extractSidebarItems_texts_trimmed
  (parseFromString : jsstring -> result Document) (html : jsstring) (item : SidebarItem) :
  In item (extractSidebarItems parseFromString html) ->
  exists c m, text item = c :: m /\ isWhiteSpace c = false /\
              isWhiteSpace (last (text item) c) = false.
Proof.
  intros Hin.
  destruct (parseFromString html) as [doc|e] eqn:Hp.
  - rewrite (extractSidebarItems_parsed _ _ _ Hp) in Hin.
    destruct (sidebarContainer doc) as [c|]; [|contradiction].
    apply collect_In in Hin as (link & _ & Hk).
    apply sidebarItemOf_kept in Hk as (_ & Ht & _ & _ & Hne & _).
    rewrite Ht in *. destruct (trim_ends (textContent link)) as [E|H]; [contradiction|exact H].
  - unfold extractSidebarItems in Hin. rewrite Hp in Hin. contradiction.
Qed.

Lemma extractSidebarItems_texts_trimmed_witness :
  exists c m, js "Orders" = c :: m /\ isWhiteSpace c = false /\
              isWhiteSpace (last (js "Orders") c) = false.
Proof.
  apply (extractSidebarItems_texts_trimmed (fun _ => Ok ordersDocument) []
           {| href := js "/app/orders"; text := js "Orders"; isActive := false |}).
  vm_compute. left. reflexivity.
Defined.

(* ================================================================== *)
(** * Properties of the auth store, the routes and the page state *)

Import AuthStore.

Lemma orElse_nonempty (value : option jsstring) (fallback : jsstring) :
  fallback <> [] -> orElse value fallback <> [].
Proof.
  intros Hf. unfold orElse. destruct value as [[|c s]|]; simpl; try exact Hf.
  discriminate.
Qed.

(** The outcome of a login, by the cases of the response. *)
Lemma login_cases (usr pwd : jsstring) (response : option LoginResponse)
  (st : AuthState) :
  let st' := fst (login usr pwd response st) in
  let r := snd (login usr pwd response st) in
  (success r = true <->
   exists resp, response = Some resp /\ ok resp = true /\
     (message resp = Some (js "Logged In") \/ message resp = Some (js "No App"))) /\
  (success r = true ->
   isAuthenticated st' = true /\ error st' = None /\
   token st' = Some API_TOKEN /\
   homePage st' = resultHomePage r /\
   (exists h, homePage st' = Some h /\ h <> []) /\
   (exists u, user st' = Some u /\ email u = usr)) /\
  (success r = false ->
   isAuthenticated st' = isAuthenticated st /\ user st' = user st /\
   homePage st' = homePage st /\ token st' = token st /\
   exists e, error st' = Some e /\ e <> []).
Proof.
  assert (Hm : forall m x, isMessage m x = true <-> m = Some x).
  { intros [s|] x; simpl; [rewrite streq_eq|]; split; congruence. }
  unfold login. destruct response as [resp|].
  - destruct (ok resp) eqn:Eo; simpl andb.
    + destruct (isMessage (message resp) (js "Logged In")
                || isMessage (message resp) (js "No App")) eqn:Em; simpl.
      * split; [|split; [|discriminate]].
        -- split; [intros _|reflexivity]. exists resp.
           apply orb_prop in Em. rewrite !Hm in Em. auto.
        -- intros _. repeat split; eauto.
           exists (orElse (home_page resp) (js "/me")). split; [reflexivity|].
           apply orElse_nonempty. discriminate.
      * split; [|split; [discriminate|]].
        -- split; [discriminate|]. intros (r' & [= <-] & _ & Hmsg).
           rewrite <- !Hm in Hmsg. apply orb_false_elim in Em as [E1 E2].
           destruct Hmsg; congruence.
        -- intros _. repeat split. eexists. split; [reflexivity|].
           apply orElse_nonempty. discriminate.
    + simpl. split; [|split; [discriminate|]].
      * split; [discriminate|]. intros (r' & [= <-] & Hok & _). congruence.
      * intros _. repeat split. eexists. split; [reflexivity|].
        apply orElse_nonempty. discriminate.
  - simpl. split; [|split; [discriminate|]].
    + split; [discriminate|]. intros (r' & H & _). discriminate H.
    + intros _. repeat split. eexists. split; [reflexivity|discriminate].
Qed.

(** [value || fallback] is the value when it is a string that is not
    empty, and the fallback when it is missing or empty. *)
Lemma orElse_cases (value : option jsstring) (fallback : jsstring) :
  (forall v, value = Some v -> v <> [] -> orElse value fallback = v) /\
  (value = None \/ value = Some [] -> orElse value fallback = fallback).
Proof.
  split.
  - intros v -> Hv. destruct v; [contradiction|reflexivity].
  - intros [->| ->]; reflexivity.
Qed.

(** X12.  A login succeeds exactly when the response is in the 2xx range
    and its message is Logged In or No App.  It then opens a session for
    the address given and clears the error; the home page of the session,
    which is also the one returned, is the home_page of the response when
    that is a string that is not empty and /me otherwise, and the name of
    the user is the full_name of the response when that is not empty and
    the part of the address before its first at sign otherwise.  A login
    that fails leaves the session as it was, an open one open, and sets an
    error message that is not empty: the message of the response, Login
    failed when there is none, and the network error when the request
    threw. *)
Theorem login_outcome (usr pwd : jsstring) (response : option LoginResponse)
  (st : AuthState) :
  let st' := fst (login usr pwd response st) in
  let r := snd (login usr pwd response st) in
  (success r = true <->
   exists resp, response = Some resp /\ ok resp = true /\
     (message resp = Some (js "Logged In") \/ message resp = Some (js "No App"))) /\
  (success r = true ->
   isAuthenticated st' = true /\ error st' = None /\
   token st' = Some API_TOKEN /\
   homePage st' = resultHomePage r /\
   (exists h, homePage st' = Some h /\ h <> []) /\
   (exists u, user st' = Some u /\ email u = usr)) /\
  (forall resp, response = Some resp -> success r = true ->
   (forall h, home_page resp = Some h -> h <> [] -> homePage st' = Some h) /\
   (home_page resp = None \/ home_page resp = Some [] ->
    homePage st' = Some (js "/me")) /\
   (forall n, data_full_name resp = Some n -> n <> [] ->
    user st' = Some {| email := usr; full_name := n |}) /\
   (data_full_name resp = None \/ data_full_name resp = Some [] ->
    user st' = Some {| email := usr; full_name := beforeAt usr |})) /\
  (success r = false ->
   isAuthenticated st' = isAuthenticated st /\ user st' = user st /\
   homePage st' = homePage st /\ token st' = token st /\
   (exists e, error st' = Some e /\ e <> []) /\
   (forall resp m, response = Some resp -> message resp = Some m -> m <> [] ->
    error st' = Some m) /\
   (forall resp, response = Some resp ->
    message resp = None \/ message resp = Some [] ->
    error st' = Some (js "Login failed")) /\
   (response = None -> error st' = Some (js "Network error. Please try again."))).
Proof.
  intros st' r.
  destruct (login_cases usr pwd response st) as (Hiff & Hs & Hf).
  fold st' in Hs, Hf. fold r in Hiff, Hs, Hf.
  split; [exact Hiff|]. split; [exact Hs|]. split.
  - intros resp -> Hr. subst st' r. unfold login in *.
    destruct (ok resp && (isMessage (message resp) (js "Logged In")
                          || isMessage (message resp) (js "No App")));
      [|discriminate Hr].
    cbn [fst homePage user].
    destruct (orElse_cases (home_page resp) (js "/me")) as [Hh1 Hh2].
    destruct (orElse_cases (data_full_name resp) (beforeAt usr)) as [Hn1 Hn2].
    repeat split.
    + intros h Hh Hne. now rewrite (Hh1 h Hh Hne).
    + intros H. now rewrite (Hh2 H).
    + intros n Hn Hne. now rewrite (Hn1 n Hn Hne).
    + intros H. now rewrite (Hn2 H).
  - intros Hr. destruct (Hf Hr) as (Ha & Hu & Hh & Ht & He).
    repeat (split; [assumption|]).
    subst st' r. unfold login in *. repeat split.
    + intros resp m -> Hm Hne.
      destruct (ok resp && (isMessage (message resp) (js "Logged In")
                            || isMessage (message resp) (js "No App")));
        [discriminate Hr|].
      cbn [fst setError error].
      now rewrite (proj1 (orElse_cases (message resp) (js "Login failed")) m Hm Hne).
    + intros resp -> Hm.
      destruct (ok resp && (isMessage (message resp) (js "Logged In")
                            || isMessage (message resp) (js "No App")));
        [discriminate Hr|].
      cbn [fst setError error].
      now rewrite (proj2 (orElse_cases (message resp) (js "Login failed")) Hm).
    + intros ->. reflexivity.
Qed.

Lemma login_outcome_witness :
  homePage
    (fst (login (js "ann@example.com") (js "right")
            (Some {| ok := true; message := Some (js "Logged In");
                     home_page := Some (js "/app/orders");
                     data_full_name := None |})
            initialState))
  = Some (js "/app/orders") /\
  user
    (fst (login (js "ann@example.com") (js "right")
            (Some {| ok := true; message := Some (js "Logged In");
                     home_page := Some (js "/app/orders");
                     data_full_name := None |})
            initialState))
  = Some {| email := js "ann@example.com"; full_name := js "ann" |} /\
  error
    (fst (login (js "ann@example.com") (js "secret")
            (Some {| ok := false; message := Some (js "Invalid login");
                     home_page := None; data_full_name := None |})
            initialState))
  = Some (js "Invalid login").
Proof.
  split; [|split].
  - apply (proj1 (proj1 (proj2 (proj2 (login_outcome (js "ann@example.com") (js "right")
                    (Some {| ok := true; message := Some (js "Logged In");
                             home_page := Some (js "/app/orders");
                             data_full_name := None |})
                    initialState))) _ eq_refl eq_refl) (js "/app/orders"));
      [reflexivity|discriminate].
  - apply (proj2 (proj2 (proj2 (proj1 (proj2 (proj2 (login_outcome
                    (js "ann@example.com") (js "right")
                    (Some {| ok := true; message := Some (js "Logged In");
                             home_page := Some (js "/app/orders");
                             data_full_name := None |})
                    initialState))) _ eq_refl eq_refl)))).
    left. reflexivity.
  - apply (proj1 (proj2 (proj2 (proj2 (proj2 (proj2 (proj2 (proj2 (proj2
                    (login_outcome (js "ann@example.com") (js "secret")
                    (Some {| ok := false; message := Some (js "Invalid login");
                             home_page := None; data_full_name := None |})
                    initialState))) eq_refl)))))) _ (js "Invalid login") eq_refl);
      [reflexivity|discriminate].
Defined.

Lemma step_consistent (st : AuthState) (a : Action) :
  sessionConsistent st -> sessionConsistent (step st a).
Proof.
  intros Hc. destruct a as [usr pwd response|failed|].
  - pose proof (login_cases usr pwd response st) as (_ & Hs & Hf).
    simpl step. destruct (success (snd (login usr pwd response st))) eqn:E.
    + destruct (Hs eq_refl) as (Ha & _ & Ht & _ & Hh & (u & Hu & _)).
      unfold sessionConsistent. rewrite Ha. eauto.
    + destruct (Hf eq_refl) as (Ha & Hu & Hh & Ht & _).
      unfold sessionConsistent in *. rewrite Ha, Hu, Hh, Ht. exact Hc.
  - simpl. unfold sessionConsistent. simpl. auto.
  - exact Hc.
Qed.

Lemma run_consistent_from (actions : list Action) : forall st,
  sessionConsistent st -> sessionConsistent (fold_left step actions st).
Proof.
  induction actions as [|a actions IH]; intros st Hc; [exact Hc|].
  simpl. apply IH. now apply step_consistent.
Qed.

Lemma initialState_consistent : sessionConsistent initialState.
Proof. unfold sessionConsistent. simpl. auto. Qed.

(** X13.  After any sequence of logins, logouts and error resets on a
    fresh store the session is all there or not at all: when the user is
    authenticated there are a user, a home page that is not empty and the
    token; when not, there is none of them.  A logout, whatever its
    request does, leaves the store as it was created. *)
Theorem session_all_or_nothing (actions : list Action) :
  sessionConsistent (run actions) /\
  (forall failed, run (actions ++ [Logout failed]) = initialState).
Proof.
  split.
  - apply run_consistent_from, initialState_consistent.
  - intros failed. unfold run. rewrite fold_left_app. reflexivity.
Qed.

(** ** Routes *)

(** X14.  Without authentication no route renders the dashboard: each
    renders the sign-in page or redirects to /login.  With authentication
    no route renders the sign-in page; and in a store that was fresh and
    then used, a redirect of an authenticated user goes to the stored home
    page, which is not empty, so that the /dashboard default is never the
    target. *)
Theorem AppRoutes_guard (st : AuthState) (route : MatchedRoute) :
  (isAuthenticated st = false ->
   AppRoutes st route = SigninPage \/ AppRoutes st route = Navigate (js "/login")) /\
  (isAuthenticated st = true -> AppRoutes st route <> SigninPage) /\
  (forall actions, st = run actions -> isAuthenticated st = true ->
   AppRoutes st route = DashboardOverviewPage \/
   exists h, homePage st = Some h /\ h <> [] /\ AppRoutes st route = Navigate h).
Proof.
  split; [|split].
  - intros H. unfold AppRoutes, ProtectedRoute. rewrite H.
    destruct route; simpl; auto.
  - intros H. unfold AppRoutes, ProtectedRoute. rewrite H.
    destruct route; simpl; discriminate.
  - intros actions -> H.
    pose proof (run_consistent_from actions _ initialState_consistent) as Hc.
    fold (run actions) in Hc. unfold sessionConsistent in Hc. rewrite H in Hc.
    destruct Hc as (_ & (h & Hh & Hne) & _).
    assert (Ho : orElse (homePage (run actions)) (js "/dashboard") = h).
    { rewrite Hh. unfold orElse. destruct h; [contradiction|reflexivity]. }
    unfold AppRoutes, ProtectedRoute. rewrite H, Ho.
    destruct route; simpl; eauto.
Qed.

Lemma AppRoutes_guard_witness :
  AppRoutes initialState ProtectedRoutes = SigninPage \/
  AppRoutes initialState ProtectedRoutes = Navigate (js "/login").
Proof.
  apply (proj1 (AppRoutes_guard initialState ProtectedRoutes)). reflexivity.
Defined.

(** ** Page state *)

(** X15.  However the request ends, the sidebar effect leaves the loading
    flag off and the content untouched.  It ends without an error exactly
    when there are a home page and a token and a 2xx response whose text
    could be read, and the entries are then the ones extracted from it;
    when it ends with an error the entries are the ones there were, and
    without a home page the error names the home page, with or without a
    token. *)
Theorem fetchSidebar_outcome
  (parseFromString : jsstring -> result Document)
  (homePage token : option jsstring) (fetched : Fetched) (st : PageState) :
  let st' := fetchSidebar parseFromString homePage token fetched st in
  isLoading st' = false /\
  mainContent st' = mainContent st /\ contentStyles st' = contentStyles st /\
  (pageError st' = None <->
   noToken homePage = false /\ noToken token = false /\
   exists status statusText html,
     fetched = Responded true status statusText (Some html)) /\
  (forall status statusText html,
     pageError st' = None ->
     fetched = Responded true status statusText (Some html) ->
     sidebarItems st' = extractSidebarItems parseFromString html) /\
  (pageError st' <> None -> sidebarItems st' = sidebarItems st) /\
  (noToken homePage = true ->
   pageError st' = Some (js "No home page configured")).
Proof.
  unfold fetchSidebar.
  destruct (noToken homePage) eqn:Eh; simpl orb; cbv iota.
  - simpl. repeat split; try discriminate; try tauto.
    intros (H & _); discriminate H.
  - destruct (noToken token) eqn:Et; cbv iota.
    + simpl. repeat split; try discriminate; try tauto.
      intros (_ & H & _); discriminate H.
    + destruct fetched as [|[|] status statusText [html|]]; simpl;
        repeat split; try discriminate; try tauto; eauto;
        try (intros (_ & _ & (a & b & c & H)); discriminate H);
        try (intros a b c _ [= _ _ <-]; reflexivity);
        try (intros H; now contradiction H).
Qed.

Lemma fetchSidebar_outcome_witness :
  pageError (fetchSidebar (fun _ => Ok ordersDocument) None None Rejected
               {| sidebarItems := []; mainContent := []; contentStyles := [];
                  isLoading := true; isContentLoading := false; pageError := None |})
  = Some (js "No home page configured").
Proof.
  apply (fetchSidebar_outcome (fun _ => Ok ordersDocument) None None Rejected).
  reflexivity.
Defined.

(** X16.  A call of [fetchPageContent] that ends with an error keeps the
    content and the styles that were shown before; one that ends without
    an error shows the content and the styles extracted from the response.
    With a token the content-loading flag is off at the end; without one
    only the error changes.  The entries of the sidebar and its loading
    flag are never touched. *)
Theorem fetchPageContent_outcome
  (parseFromString : jsstring -> result Document)
  (token : option jsstring) (fetched : Fetched) (st : PageState) :
  let st' := fetchPageContentState parseFromString token fetched st in
  sidebarItems st' = sidebarItems st /\ isLoading st' = isLoading st /\
  (pageError st' <> None ->
   mainContent st' = mainContent st /\ contentStyles st' = contentStyles st) /\
  (pageError st' = None ->
   exists status statusText html,
     fetched = Responded true status statusText (Some html) /\
     mainContent st' = content (extractStylesAndContent parseFromString html) /\
     contentStyles st' = styles (extractStylesAndContent parseFromString html)) /\
  (noToken token = false -> isContentLoading st' = false) /\
  (noToken token = true ->
   isContentLoading st' = isContentLoading st /\
   pageError st' = Some (js "No authentication token available")).
Proof.
  unfold fetchPageContentState.
  destruct (noToken token) eqn:Et; cbv iota.
  - simpl. repeat split; try discriminate.
  - destruct fetched as [|[|] status statusText [html|]]; simpl;
      repeat split; try discriminate; eauto;
      try (intros H; now contradiction H);
      try (intros _; exists status, statusText, html; repeat split);
      try (match goal with H : ?x <> ?x |- _ => now contradiction H end).
Qed.

Lemma fetchPageContent_outcome_witness :
  mainContent (fetchPageContentState (fun _ => Ok imageDocument)
                 (Some (js "t")) (Responded false 404%N (js "Not Found") None)
                 {| sidebarItems := []; mainContent := js "<p>old</p>";
                    contentStyles := []; isLoading := false;
                    isContentLoading := true; pageError := None |})
  = js "<p>old</p>".
Proof.
  apply (fetchPageContent_outcome (fun _ => Ok imageDocument)
           (Some (js "t")) (Responded false 404%N (js "Not Found") None)).
  discriminate.
Defined.
